(** * Conversational session store of the Minerva backend

    A shallow embedding of [app/services/memory_service.py]
    (class [ConversationalMemoryService]) together with the
    [UserSession] table of [app/models/user.py].

    Conventions of the embedding.

    - [datetime] values live on one integer time line ([Z], in seconds).
      The n-th clock reading of a run is [utc n] when the service takes
      it ([datetime.utcnow()]) and [db_now n] when the database takes it
      ([func.now()]); the two oracles are unrelated.  ISO-8601 strings
      produced by [isoformat()] are represented by the instant they
      denote.
    - A value handed to a JSON column or, as a JSON string, to Redis is
      read back unchanged ([json.loads (json.dumps v) = v]).  Numbers in
      JSON values are integers; the averages the analyzer compares with
      constants are compared by cross-multiplication, and the float
      division that computes the average of the response times raises
      [OverflowError] as Python's does.
    - The SQLAlchemy session is a table keyed by the unique column
      [session_token].  It tracks the objects returned by a query or
      passed to [db.add].  [db.commit()] writes the attributes of a
      tracked object that were assigned an object other than the one
      loaded; a list or dictionary that was loaded, changed in place and
      assigned back is the same object, so the change is not written.
      The commit expires the tracked object, so what the service reads
      from it afterwards is the row.  An object built with
      [UserSession(...)] and never added (what [_get_cached_session]
      returns) is not tracked: a commit leaves the table and the object
      as they are.
    - The database returns the [DateTime(timezone=True)] columns either
      naive (SQLite) or timezone-aware (PostgreSQL); [db_aware] tells
      which.  On a timezone-aware database every [expires_at] the
      service writes to Redis carries an offset.
    - Redis is a store of hashes.  A hash is a partial record of the
      seven fields the service writes.  The client is either absent
      ([self.redis_client is None]), present with every call raising
      (each call sits in a [try] whose handler logs and goes on), or
      connected.  [hmset] refuses a mapping with a [None] value, so a
      session without [last_activity] is not cached.  Key expiry
      ([expire key 86400]) never removes the hash of a session that is
      still valid and is not represented.
    - Every caller in [app/api] passes a db handle, so the operations are
      embedded with [db] present.
    - Message contents are strings over the code points 0..255. *)

From Stdlib Require Import ZArith String Ascii List Lia.
From stdpp Require Import base gmap strings list fin_maps.

Local Open Scope Z_scope.
Local Open Scope string_scope.

(** ** JSON values and messages *)

#[warnings="-register-all"]
Inductive JValue : Type :=
| JNull
| JBool (b : bool)
| JNum (n : Z)
| JStr (s : string)
| JIso (t : Z)
| JArr (l : list JValue)
| JObj (kvs : list (string * JValue)).

Abbreviation Dict := (gmap string JValue).

(** The dictionary built at the top of [add_conversation_message]. *)
Record Message : Type := mkMessage {
  role : string;
  content : string;
  timestamp : Z;
  metadata : Dict
}.

(** ** Python list slicing *)

(** [l[-n:]] for a positive constant [n]. *)
Definition last_n {A} (n : nat) (l : list A) : list A :=
  drop (length l - n)%nat l.

(** [l[-k:]] for an arbitrary integer [k]: the start index [-k] counts
    from the end when negative and is clipped to the list. *)
Definition slice_from_neg {A} (k : Z) (l : list A) : list A :=
  if (0 <? k)%Z then drop (length l - Z.to_nat k)%nat l
  else drop (Z.to_nat (- k)) l.

(** ** Python string operations on message contents

    Characters are the code points 0..255; [str.lower()] on that range
    maps A-Z and the Latin-1 capitals (except the multiplication sign)
    to their lower-case forms. *)

Definition lower_char (c : ascii) : ascii :=
  let n := nat_of_ascii c in
  if ((65 <=? n) && (n <=? 90))%nat then ascii_of_nat (n + 32)
  else if ((192 <=? n) && (n <=? 222) && negb (n =? 215))%nat
       then ascii_of_nat (n + 32)
  else c.

Fixpoint lower (s : string) : string :=
  match s with
  | EmptyString => EmptyString
  | String c s' => String (lower_char c) (lower s')
  end.

(** [needle in hay] *)
Fixpoint contains (needle hay : string) : bool :=
  String.prefix needle hay ||
  match hay with
  | EmptyString => false
  | String _ hay' => contains needle hay'
  end.

(** ** The [user_sessions] table and the session object *)

Record Row : Type := mkRow {
  r_user_id : Z;
  r_conversation_history : list Message;
  r_current_story_context : Dict;
  r_learning_progress : Dict;
  r_personality_adaptations : Dict;
  r_created_at : option Z;
  r_last_activity : option Z;
  r_expires_at : Z
}.

(** A [UserSession] instance as the service holds it.  [tracked] tells
    whether the db session manages the object. *)
Record UserSession : Type := mkSession {
  tracked : bool;
  session_token : string;
  user_id : Z;
  conversation_history : list Message;
  current_story_context : Dict;
  learning_progress : Dict;
  personality_adaptations : Dict;
  created_at : option Z;
  last_activity : option Z;
  expires_at : Z
}.

Definition of_row (tok : string) (r : Row) : UserSession :=
  {| tracked := true; session_token := tok;
     user_id := r_user_id r;
     conversation_history := r_conversation_history r;
     current_story_context := r_current_story_context r;
     learning_progress := r_learning_progress r;
     personality_adaptations := r_personality_adaptations r;
     created_at := r_created_at r;
     last_activity := r_last_activity r;
     expires_at := r_expires_at r |}.

(** Attribute assignments [session.x = v]. *)
Definition set_conversation_history (h : list Message) (s : UserSession) :=
  {| tracked := tracked s; session_token := session_token s;
     user_id := user_id s; conversation_history := h;
     current_story_context := current_story_context s;
     learning_progress := learning_progress s;
     personality_adaptations := personality_adaptations s;
     created_at := created_at s; last_activity := last_activity s;
     expires_at := expires_at s |}.

Definition set_current_story_context (d : Dict) (s : UserSession) :=
  {| tracked := tracked s; session_token := session_token s;
     user_id := user_id s; conversation_history := conversation_history s;
     current_story_context := d;
     learning_progress := learning_progress s;
     personality_adaptations := personality_adaptations s;
     created_at := created_at s; last_activity := last_activity s;
     expires_at := expires_at s |}.

Definition set_learning_progress (d : Dict) (s : UserSession) :=
  {| tracked := tracked s; session_token := session_token s;
     user_id := user_id s; conversation_history := conversation_history s;
     current_story_context := current_story_context s;
     learning_progress := d;
     personality_adaptations := personality_adaptations s;
     created_at := created_at s; last_activity := last_activity s;
     expires_at := expires_at s |}.

Definition set_personality_adaptations (d : Dict) (s : UserSession) :=
  {| tracked := tracked s; session_token := session_token s;
     user_id := user_id s; conversation_history := conversation_history s;
     current_story_context := current_story_context s;
     learning_progress := learning_progress s;
     personality_adaptations := d;
     created_at := created_at s; last_activity := last_activity s;
     expires_at := expires_at s |}.

Definition set_last_activity (t : option Z) (s : UserSession) :=
  {| tracked := tracked s; session_token := session_token s;
     user_id := user_id s; conversation_history := conversation_history s;
     current_story_context := current_story_context s;
     learning_progress := learning_progress s;
     personality_adaptations := personality_adaptations s;
     created_at := created_at s; last_activity := t;
     expires_at := expires_at s |}.

(** ** Redis *)

(** The hash kept under [session:<token>]; a field is [None] when the
    hash does not hold it. *)
Record Hash : Type := mkHash {
  h_user_id : option Z;
  h_conversation_history : option (list Message);
  h_current_story_context : option Dict;
  h_learning_progress : option Dict;
  h_personality_adaptations : option Dict;
  h_last_activity : option Z;
  h_expires_at : option Z
}.

Inductive Redis : Type :=
| NoClient
| Unreachable
| Connected (store : gmap string Hash).

Definition cache_key (tok : string) : string := "session:" ++ tok.

(** ** The world the service runs in *)

Record World : Type := mkWorld {
  db : gmap string Row;
  redis : Redis;
  ticks : nat;            (* clock readings taken so far *)
  issued : nat;           (* tokens generated so far *)
  db_aware : bool;        (* the database returns timezone-aware datetimes *)
  db_now : nat -> Z       (* the database's clock *)
}.

Definition set_db (d : gmap string Row) (w : World) : World :=
  {| db := d; redis := redis w; ticks := ticks w; issued := issued w;
     db_aware := db_aware w; db_now := db_now w |}.

Definition set_redis (r : Redis) (w : World) : World :=
  {| db := db w; redis := r; ticks := ticks w; issued := issued w;
     db_aware := db_aware w; db_now := db_now w |}.

Definition set_ticks (t : nat) (w : World) : World :=
  {| db := db w; redis := redis w; ticks := t; issued := issued w;
     db_aware := db_aware w; db_now := db_now w |}.

Definition set_issued (i : nat) (w : World) : World :=
  {| db := db w; redis := redis w; ticks := ticks w; issued := i;
     db_aware := db_aware w; db_now := db_now w |}.

(** [if self.redis_client:] *)
Definition redis_client (w : World) : bool :=
  match redis w with NoClient => false | _ => true end.

(** ** Exceptions that reach the caller *)

Inductive Exn : Type := IntegrityError | TypeError | OverflowError.

Inductive Result (A : Type) : Type :=
| Ok (a : A)
| Raise (e : Exn).
Arguments Ok {A} a.
Arguments Raise {A} e.

(** ** State monad *)

Definition M (A : Type) : Type := World -> A * World.

Definition ret {A} (a : A) : M A := fun w => (a, w).

Definition bind {A B} (m : M A) (k : A -> M B) : M B :=
  fun w => let (a, w') := m w in k a w'.

Notation "'let*' x ':=' m 'in' k" := (bind m (fun x => k))
  (at level 10, x name, m at level 100, k at level 200, only parsing).

Definition gets {A} (f : World -> A) : M A := fun w => (f w, w).
Definition modify (f : World -> World) : M unit := fun w => (tt, f w).

(** ** The service *)

Section Service.

(** [utc n] is the value of the n-th clock reading of the run when the
    service takes it, and [uuid4 n] the n-th token drawn by
    [_generate_session_token]. *)
Variable utc : nat -> Z.
Variable uuid4 : nat -> string.

(** [datetime.utcnow()] *)
Definition utcnow : M Z :=
  fun w => (utc (ticks w), set_ticks (S (ticks w)) w).

(** [func.now()], evaluated by the database. *)
Definition func_now : M Z :=
  fun w => (db_now w (ticks w), set_ticks (S (ticks w)) w).

Definition _generate_session_token : M string :=
  fun w => (uuid4 (issued w), set_issued (S (issued w)) w).

Definition max_conversation_length : nat := 100.
Definition personality_analysis_threshold : nat := 10.

(** 24 hours, in the unit of the time line (seconds). *)
Definition session_lifetime : Z := 86400.

(** *** Cache helpers *)

(** The mapping [_cache_session] hands to [hmset].  All seven fields
    are given, so the hash stored afterwards does not depend on the one
    stored before. *)
Definition session_data (s : UserSession) : Hash :=
  {| h_user_id := Some (user_id s);
     h_conversation_history := Some (conversation_history s);
     h_current_story_context := Some (current_story_context s);
     h_learning_progress := Some (learning_progress s);
     h_personality_adaptations := Some (personality_adaptations s);
     h_last_activity := last_activity s;
     h_expires_at := Some (expires_at s) |}.

Definition _cache_session (tok : string) (s : UserSession) : M unit :=
  fun w =>
    match redis w with
    | NoClient => (tt, w)                       (* if not self.redis_client *)
    | Unreachable => (tt, w)                    (* except: logger.warning *)
    | Connected st =>
        match last_activity s with
        | None => (tt, w)       (* hmset: DataError on the None value, caught *)
        | Some _ =>
            (tt, set_redis (Connected (<[cache_key tok := session_data s]> st)) w)
        end
    end.

(** The [UserSession(...)] built from a hash: no [created_at], not
    tracked by the db session. *)
Definition session_of_hash (tok : string) (uid e : Z) (h : Hash) : UserSession :=
  {| tracked := false; session_token := tok;
     user_id := uid;
     conversation_history := default [] (h_conversation_history h);
     current_story_context := default ∅ (h_current_story_context h);
     learning_progress := default ∅ (h_learning_progress h);
     personality_adaptations := default ∅ (h_personality_adaptations h);
     created_at := None;
     last_activity := h_last_activity h;
     expires_at := e |}.

Definition _get_cached_session (tok : string) : M (option UserSession) :=
  fun w =>
    match redis w with
    | NoClient => (None, w)
    | Unreachable => (None, w)                  (* hgetall raises *)
    | Connected st =>
        match st !! cache_key tok with
        | None => (None, w)                     (* if not session_data *)
        | Some h =>
            match h_expires_at h with
            | None => (None, w)                 (* KeyError, caught *)
            | Some e =>
                (let* now := utcnow in
                 if db_aware w then
                   (* an expires_at with an offset against the naive
                      utcnow(): the comparison raises TypeError, caught *)
                   ret None
                 else if (e <=? now)%Z then
                   let* _ := modify (set_redis (Connected (delete (cache_key tok) st))) in
                   ret None
                 else
                   match h_user_id h with
                   | None => ret None           (* KeyError, caught *)
                   | Some uid => ret (Some (session_of_hash tok uid e h))
                   end) w
            end
        end
    end.

Definition empty_hash : Hash :=
  {| h_user_id := None; h_conversation_history := None;
     h_current_story_context := None; h_learning_progress := None;
     h_personality_adaptations := None; h_last_activity := None;
     h_expires_at := None |}.

(** [hset key "conversation_history" v] *)
Definition hset_conversation_history (v : list Message) (h : Hash) : Hash :=
  {| h_user_id := h_user_id h;
     h_conversation_history := Some v;
     h_current_story_context := h_current_story_context h;
     h_learning_progress := h_learning_progress h;
     h_personality_adaptations := h_personality_adaptations h;
     h_last_activity := h_last_activity h;
     h_expires_at := h_expires_at h |}.

(** Append, then keep the last [max_conversation_length] entries. *)
Definition append_trim (l : list Message) (m : Message) : list Message :=
  let l' := (l ++ [m])%list in
  if (max_conversation_length <? length l')%nat
  then last_n max_conversation_length l' else l'.

Definition _add_message_to_cache (tok : string) (m : Message) : M unit :=
  fun w =>
    match redis w with
    | NoClient => (tt, w)
    | Unreachable => (tt, w)
    | Connected st =>
        let h := default empty_hash (st !! cache_key tok) in
        let current_history := default [] (h_conversation_history h) in
        (tt, set_redis (Connected
               (<[cache_key tok :=
                    hset_conversation_history (append_trim current_history m) h]> st)) w)
    end.

(** [if self.redis_client: await ...] at a call site. *)
Definition when_client (m : M unit) : M unit :=
  let* client := gets redis_client in
  if client then m else ret tt.

(** *** Database helpers *)

(** [db.query(UserSession).filter(session_token == tok,
    expires_at > datetime.utcnow()).first()] *)
Definition db_query (tok : string) : M (option UserSession) :=
  let* now := utcnow in
  let* rows := gets db in
  match rows !! tok with
  | Some r => if (now <? r_expires_at r)%Z then ret (Some (of_row tok r))
              else ret None
  | None => ret None
  end.

(** The columns of the row that an operation assigns. *)
Inductive Column : Type :=
| ConversationHistory
| CurrentStoryContext
| LearningProgress
| PersonalityAdaptations
| LastActivity.

Definition Column_eqb (a b : Column) : bool :=
  match a, b with
  | ConversationHistory, ConversationHistory
  | CurrentStoryContext, CurrentStoryContext
  | LearningProgress, LearningProgress
  | PersonalityAdaptations, PersonalityAdaptations
  | LastActivity, LastActivity => true
  | _, _ => false
  end.

Definition has (c : Column) (cols : list Column) : bool :=
  existsb (Column_eqb c) cols.

(** The row after an UPDATE that sets the columns [cols] to the
    attributes of [s]. *)
Definition write_columns (cols : list Column) (s : UserSession) (r : Row) : Row :=
  {| r_user_id := r_user_id r;
     r_conversation_history :=
       if has ConversationHistory cols then conversation_history s
       else r_conversation_history r;
     r_current_story_context :=
       if has CurrentStoryContext cols then current_story_context s
       else r_current_story_context r;
     r_learning_progress :=
       if has LearningProgress cols then learning_progress s
       else r_learning_progress r;
     r_personality_adaptations :=
       if has PersonalityAdaptations cols then personality_adaptations s
       else r_personality_adaptations r;
     r_created_at := r_created_at r;
     r_last_activity :=
       if has LastActivity cols then last_activity s else r_last_activity r;
     r_expires_at := r_expires_at r |}.

Definition set_r_last_activity (t : option Z) (r : Row) : Row :=
  {| r_user_id := r_user_id r;
     r_conversation_history := r_conversation_history r;
     r_current_story_context := r_current_story_context r;
     r_learning_progress := r_learning_progress r;
     r_personality_adaptations := r_personality_adaptations r;
     r_created_at := r_created_at r;
     r_last_activity := t;
     r_expires_at := r_expires_at r |}.

(** [db.commit()] after assignments to [s]; [cols] are the attributes
    that were assigned an object other than the one loaded, which is
    what the unit of work takes for changed.  For a tracked object with
    such attributes an UPDATE is emitted; when it does not set
    [last_activity], the column's [onupdate=func.now()] does.  The
    commit expires the object: the result is the object as the service
    sees it afterwards, reloaded from the row.  An object that is not
    tracked is left as it is. *)
Definition db_commit (cols : list Column) (s : UserSession) : M UserSession :=
  if tracked s then
    let* rows := gets db in
    match rows !! session_token s with
    | None => ret s                       (* rows are never deleted *)
    | Some r =>
        match cols with
        | [] => ret (of_row (session_token s) r)
        | _ :: _ =>
            let r := write_columns cols s r in
            let* r :=
              if has LastActivity cols then ret r
              else let* now := func_now in ret (set_r_last_activity (Some now) r) in
            let* _ := modify (fun w => set_db (<[session_token s := r]> (db w)) w) in
            ret (of_row (session_token s) r)
        end
    end
  else ret s.

(** [x = v or default]: [x] is the loaded object itself unless it is
    empty. *)
Definition list_truthy {A} (l : list A) : bool :=
  match l with [] => false | _ :: _ => true end.

(** Truth value of a dictionary: non-empty. *)
Definition dict_truthy (d : Dict) : bool :=
  match map_to_list d with [] => false | _ :: _ => true end.

(** *** Operations *)

Definition create_session (uid : Z) : M (Result string) :=
  let* tok := _generate_session_token in
  let* now := utcnow in
  let expires := (now + session_lifetime)%Z in
  let* rows := gets db in
  match rows !! tok with
  | Some _ => ret (Raise IntegrityError)        (* unique session_token *)
  | None =>
      let* created := func_now in               (* server_default=func.now() *)
      let r := {| r_user_id := uid;
                  r_conversation_history := [];
                  r_current_story_context := ∅;
                  r_learning_progress := ∅;
                  r_personality_adaptations := ∅;
                  r_created_at := Some created;
                  r_last_activity := None;
                  r_expires_at := expires |} in
      (* db.add, db.commit, db.refresh *)
      let* _ := modify (fun w => set_db (<[tok := r]> (db w)) w) in
      let s := of_row tok r in
      let* _ := when_client (_cache_session tok s) in
      ret (Ok tok)
  end.

Definition get_session (tok : string) : M (option UserSession) :=
  let* client := gets redis_client in
  let* cached := (if client then _get_cached_session tok else ret None) in
  match cached with
  | Some s => ret (Some s)
  | None =>
      let* session := db_query tok in
      match session with
      | Some s => let* _ := when_client (_cache_session tok s) in
                  ret (Some s)
      | None => ret None
      end
  end.

Definition add_conversation_message
    (tok rl ct : string) (md : option Dict) : M unit :=
  let* stamp := utcnow in
  let message := {| role := rl; content := ct; timestamp := stamp;
                    metadata := default ∅ md |} in
  let* session := get_session tok in
  let* _ :=
    match session with
    | Some s =>
        let conversation_history := conversation_history s in
        (* [x or []], then [append] in place; the slice is a new list *)
        let same_object :=
          list_truthy conversation_history &&
          negb (max_conversation_length <? length (conversation_history ++ [message]))%nat in
        let s := set_conversation_history
                   (append_trim conversation_history message) s in
        let* now := utcnow in
        let s := set_last_activity (Some now) s in
        let* s := db_commit ((if same_object then [] else [ConversationHistory])
                             ++ [LastActivity]) s in
        when_client (_cache_session tok s)
    | None => ret tt
    end in
  when_client (_add_message_to_cache tok message).

Definition get_conversation_history
    (tok : string) (limit : option Z) : M (list Message) :=
  let* session := get_session tok in
  match session with
  | None => ret []
  | Some s =>
      let history := conversation_history s in
      match limit with
      | Some k => if (k =? 0)%Z then ret history      (* [if limit:] *)
                  else ret (slice_from_neg k history)
      | None => ret history
      end
  end.

Definition update_learning_progress (tok : string) (progress_data : Dict) : M unit :=
  let* session := get_session tok in
  match session with
  | Some s =>
      let current_progress := learning_progress s in
      (* [x or {}], then [update] in place: keys of progress_data win *)
      let same_object := dict_truthy current_progress in
      let s := set_learning_progress (progress_data ∪ current_progress) s in
      let* now := utcnow in
      let s := set_last_activity (Some now) s in
      let* s := db_commit ((if same_object then [] else [LearningProgress])
                           ++ [LastActivity]) s in
      when_client (_cache_session tok s)
  | None => ret tt
  end.

Definition update_story_context (tok : string) (story_context : Dict) : M unit :=
  let* session := get_session tok in
  match session with
  | Some s =>
      let s := set_current_story_context story_context s in
      let* now := utcnow in
      let s := set_last_activity (Some now) s in
      let* s := db_commit [CurrentStoryContext; LastActivity] s in
      when_client (_cache_session tok s)
  | None => ret tt
  end.

(** *** The personality analyzer *)

Definition positive_words : list string :=
  ["great"; "awesome"; "love"; "excellent"; "amazing"; "fantastic"].
Definition negative_words : list string :=
  ["difficult"; "hard"; "confused"; "stuck"; "frustrated"; "challenging"].
Definition visual_words : list string :=
  ["see"; "show"; "picture"; "diagram"; "visual"; "image"].
Definition analytical_words : list string :=
  ["analyze"; "break down"; "step by step"; "detailed"; "systematic"].
Definition practical_words : list string :=
  ["example"; "practice"; "try"; "hands-on"; "apply"; "use"].

(** [sum(sum(1 for word in words if word in msg["content"].lower())
        for msg in user_messages)] *)
Definition word_hits (words : list string) (msgs : list Message) : nat :=
  sum_list (map (fun msg =>
                   length (List.filter
                             (fun word => contains word (lower (content msg)))
                             words))
                msgs).

Definition positive_count := word_hits positive_words.
Definition negative_count := word_hits negative_words.

Definition emotional_tone (msgs : list Message) : string :=
  if (negative_count msgs * 2 <? positive_count msgs)%nat then "optimistic"
  else if (positive_count msgs * 2 <? negative_count msgs)%nat then "needs_support"
  else "neutral".

(** Average content length against 200 and 50; the quotient is compared
    by cross-multiplication. *)
Definition communication_preference (msgs : list Message) : string :=
  let total_messages := length msgs in
  let total_length := sum_list (map (fun msg => String.length (content msg)) msgs) in
  if (200 * total_messages <? total_length)%nat then "detailed"
  else if (total_length <? 50 * total_messages)%nat then "concise"
  else "balanced".

(** Share of messages with a question mark against 0.3 and 0.1. *)
Definition engagement_style (msgs : list Message) : string :=
  let total_messages := length msgs in
  let question_count :=
    length (List.filter (fun msg => contains "?" (content msg)) msgs) in
  if (3 * total_messages <? 10 * question_count)%nat then "inquisitive"
  else if (10 * question_count <? total_messages)%nat then "declarative"
  else "balanced".

Definition inferred_learning_style (msgs : list Message) : option string :=
  let visual_score := word_hits visual_words msgs in
  let analytical_score := word_hits analytical_words msgs in
  let practical_score := word_hits practical_words msgs in
  let max_score := Nat.max visual_score (Nat.max analytical_score practical_score) in
  if (0 <? max_score)%nat then
    if (visual_score =? max_score)%nat then Some "visual"
    else if (analytical_score =? max_score)%nat then Some "analytical"
    else Some "practical"
  else None.

(** [valid_times]: the [response_time] entries that are not [None]. *)
Definition valid_times (msgs : list Message) : list JValue :=
  List.filter (fun v => match v with JNull => false | _ => true end)
    (omap (fun msg => metadata msg !! "response_time") msgs).

(** [sum(valid_times)]: integers and booleans add up, anything else
    makes [+] raise. *)
Fixpoint sum_times (acc : Z) (l : list JValue) : Result Z :=
  match l with
  | [] => Ok acc
  | JNum n :: l' => sum_times (acc + n) l'
  | JBool b :: l' => sum_times (acc + (if b then 1 else 0)) l'
  | _ :: _ => Raise TypeError
  end.

(** The largest float is [2^1024 - 2^971]; a quotient of integers is
    rounded to the nearest float, so it overflows from
    [2^1024 - 2^970] on. *)
Definition float_overflow (total n : Z) : bool :=
  (n * (2 ^ 1024 - 2 ^ 970) <=? Z.abs total)%Z.

(** [sum(valid_times) / len(valid_times)] against 5 and 30. *)
Definition pacing_preference (msgs : list Message) : Result (option string) :=
  let times := valid_times msgs in
  match times with
  | [] => Ok None
  | _ =>
      match sum_times 0 times with
      | Raise e => Raise e
      | Ok total =>
          let n := Z.of_nat (length times) in
          if float_overflow total n then Raise OverflowError
          else if (total <? 5 * n)%Z then Ok (Some "fast")
          else if (30 * n <? total)%Z then Ok (Some "thoughtful")
          else Ok (Some "moderate")
      end
  end.

Definition set_opt (k : string) (v : option string) (d : Dict) : Dict :=
  match v with Some s => <[k := JStr s]> d | None => d end.

Definition _analyze_interaction_patterns (user_messages : list Message)
  : M (Result Dict) :=
  match user_messages with
  | [] => ret (Ok ∅)
  | _ =>
      let adaptations : Dict := ∅ in
      let adaptations :=
        <["communication_preference" := JStr (communication_preference user_messages)]>
          adaptations in
      let adaptations :=
        <["engagement_style" := JStr (engagement_style user_messages)]> adaptations in
      let adaptations :=
        <["emotional_tone" := JStr (emotional_tone user_messages)]> adaptations in
      let adaptations :=
        set_opt "inferred_learning_style" (inferred_learning_style user_messages)
          adaptations in
      match pacing_preference user_messages with
      | Raise e => ret (Raise e)
      | Ok pacing =>
          let adaptations := set_opt "pacing_preference" pacing adaptations in
          let* now := utcnow in
          let adaptations := <["analysis_timestamp" := JIso now]> adaptations in
          let adaptations :=
            <["message_count_analyzed" := JNum (Z.of_nat (length user_messages))]>
              adaptations in
          ret (Ok adaptations)
      end
  end.

(** [conversation_history[-20:]] restricted to [role == "user"]. *)
Definition recent_user_messages (history : list Message) : list Message :=
  List.filter (fun msg => String.eqb (role msg) "user") (last_n 20 history).

Definition analyze_personality_adaptations (tok : string) : M (Result Dict) :=
  let* session := get_session tok in
  match session with
  | None => ret (Ok ∅)
  | Some s =>
      let history := conversation_history s in
      if (length history <? personality_analysis_threshold)%nat
      then ret (Ok (personality_adaptations s))
      else
        let user_messages := recent_user_messages history in
        match user_messages with
        | [] => ret (Ok (personality_adaptations s))
        | _ :: _ =>
            let* analysed := _analyze_interaction_patterns user_messages in
            match analysed with
            | Raise e => ret (Raise e)
            | Ok adaptations =>
                let* _ :=
                  if dict_truthy adaptations then
                    let current_adaptations := personality_adaptations s in
                    (* [x or {}], then [update] in place: keys of the
                       new record win *)
                    let same_object := dict_truthy current_adaptations in
                    let s := set_personality_adaptations
                               (adaptations ∪ current_adaptations) s in
                    let* s := db_commit (if same_object then []
                                         else [PersonalityAdaptations]) s in
                    when_client (_cache_session tok s)
                  else ret tt in
                ret (Ok adaptations)
            end
        end
  end.

(** *** Notions used to state the properties *)

(** A run of [add_conversation_message] calls on one token; an item is
    the role, the content and the optional metadata of a call. *)
Fixpoint append_many (tok : string)
    (items : list (string * string * option Dict)) : M unit :=
  match items with
  | [] => ret tt
  | (rl, ct, md) :: rest =>
      let* _ := add_conversation_message tok rl ct md in
      append_many tok rest
  end.

(** The shape shared by [update_learning_progress] and
    [update_story_context]: load, change, stamp, commit, re-cache. *)
Definition mutate (f : UserSession -> UserSession)
    (cols : UserSession -> list Column) (tok : string) : M unit :=
  let* session := get_session tok in
  match session with
  | Some s =>
      let cols := cols s in
      let s := f s in
      let* now := utcnow in
      let s := set_last_activity (Some now) s in
      let* s := db_commit (cols ++ [LastActivity]) s in
      when_client (_cache_session tok s)
  | None => ret tt
  end.

(** Every clock reading before the [n]-th is earlier than [e]. *)
Definition alive_until (e : Z) (n : nat) : Prop :=
  forall k, (k < n)%nat -> (utc k < e)%Z.

End Service.

(** No connected cache: no client, or every call raising. *)
Definition no_cache (w : World) : Prop :=
  match redis w with Connected _ => False | _ => True end.

(** The world after one more clock reading. *)
Definition tick (w : World) : World := set_ticks (S (ticks w)) w.

(** The world after [when_client (_cache_session tok s)]. *)
Definition cached (tok : string) (s : UserSession) (w : World) : World :=
  match redis w, last_activity s with
  | Connected st, Some _ =>
      set_redis (Connected (<[cache_key tok := session_data s]> st)) w
  | _, _ => w
  end.

(** The row and the world after [db_commit cols s] for a tracked
    object whose row is [r]. *)
Definition flushed (cols : list Column) (s : UserSession) (r : Row) (w : World)
  : Row * World :=
  match cols with
  | [] => (r, w)
  | _ :: _ =>
      let r' := write_columns cols s r in
      if has LastActivity cols
      then (r', set_db (<[session_token s := r']> (db w)) w)
      else let r'' := set_r_last_activity (Some (db_now w (ticks w))) r' in
           (r'', set_db (<[session_token s := r'']> (db w)) (tick w))
  end.

(** The object and the world after [db_commit cols s]. *)
Definition committed (cols : list Column) (s : UserSession) (w : World)
  : UserSession * World :=
  if tracked s then
    match db w !! session_token s with
    | None => (s, w)
    | Some r =>
        (of_row (session_token s) (fst (flushed cols s r w)),
         snd (flushed cols s r w))
    end
  else (s, w).

(** The world after [db_commit cols s] and the [_cache_session] of the
    object that follows it. *)
Definition written_back (tok : string) (cols : list Column) (s : UserSession)
    (w : World) : World :=
  cached tok (fst (committed cols s w)) (snd (committed cols s w)).

(** The history a commit leaves in the row of a session loaded from
    the table after [m] was appended to its history [h]: a non-empty
    [h] that stays within the bound is the loaded list itself, changed
    in place, and is not written. *)
Definition kept (h : list Message) (m : Message) : list Message :=
  if list_truthy h &&
     negb (max_conversation_length <? length (h ++ [m]))%nat
  then h else append_trim h m.

(** The store that serves reads of [tok] holds the content of [s]: the
    Redis hash when Redis is connected and its hashes are readable, the
    table row otherwise. *)
Definition holds (w : World) (tok : string) (s : UserSession) : Prop :=
  match redis w, db_aware w with
  | Connected st, false => st !! cache_key tok = Some (session_data s)
  | _, _ => exists r, db w !! tok = Some r /\
                      session_data (of_row tok r) = session_data s
  end.

(** The cache is in the same mode in [w'] as in [w]: absent, raising or
    connected, with readable hashes or not. *)
Definition same_mode (w w' : World) : Prop :=
  db_aware w' = db_aware w /\
  match redis w with
  | NoClient => redis w' = NoClient
  | Unreachable => redis w' = Unreachable
  | Connected _ => exists st, redis w' = Connected st
  end.

(** A message without its timestamp, and the same for an item handed to
    [add_conversation_message]. *)
Definition unstamped (m : Message) : string * string * Dict :=
  (role m, content m, metadata m).

Definition item_content (it : string * string * option Dict)
  : string * string * Dict :=
  let '(rl, ct, md) := it in (rl, ct, default ∅ md).

(** ** The emotional-tone rule read as a count of occurrences

    The specification sentence counts the occurrences of the words in
    the analysed messages.  [occurrences word text] is the number of
    positions of [text] at which [word] starts. *)

Fixpoint occurrences (word text : string) : nat :=
  (if String.prefix word text then 1 else 0) +
  match text with
  | EmptyString => 0
  | String _ text' => occurrences word text'
  end.

Definition occurrence_count (words : list string) (msgs : list Message) : nat :=
  sum_list (map (fun msg =>
                   sum_list (map (fun word => occurrences word (lower (content msg)))
                                 words))
                msgs).

Definition tone_by_occurrences (msgs : list Message) : string :=
  let p := occurrence_count positive_words msgs in
  let n := occurrence_count negative_words msgs in
  if (2 * n <? p)%nat then "optimistic"
  else if (2 * p <? n)%nat then "needs_support"
  else "neutral".

(** ** [history[-limit:]] read as "the most recent [limit] entries" *)

Definition most_recent {A} (limit : nat) (l : list A) : list A :=
  reverse (take limit (reverse l)).

(** ** Concrete runs *)

(** A clock that advances one second per reading, and a token source. *)
Definition clock_ex (n : nat) : Z := Z.of_nat n.
Definition uuid_ex (n : nat) : string := String (ascii_of_nat (97 + n)) EmptyString.

(** An empty table on a database with naive datetimes, whose clock
    agrees with the service's. *)
Definition boot (r : Redis) : World :=
  {| db := ∅; redis := r; ticks := 0; issued := 0;
     db_aware := false; db_now := clock_ex |}.

Definition tok_ex : string := uuid_ex 0.

(** [create_session(7)] and then one [add_conversation_message]. *)
Definition after_create (r : Redis) : World :=
  snd (create_session clock_ex uuid_ex 7 (boot r)).

Definition after_hi (r : Redis) : World :=
  snd (add_conversation_message clock_ex tok_ex "user" "hi" None (after_create r)).

Definition hi_message (t : Z) : Message :=
  {| role := "user"; content := "hi"; timestamp := t; metadata := ∅ |}.

(** Runs of user messages; [label k] is the one-character string of
    code [k]. *)
Definition label (k : nat) : string := String (ascii_of_nat k) EmptyString.

Definition user_items (cts : list string) : list (string * string * option Dict) :=
  map (fun ct => ("user", ct, None)) cts.

Definition append_all (cts : list string) (w : World) : World :=
  snd (append_many clock_ex tok_ex (user_items cts) w).

(** The contents of 101 appended messages, in order. *)
Definition appended : list string := map label (seq 1 101).

(** Ten user messages, then an analysis. *)
Definition after_ten (r : Redis) : World :=
  append_all (replicate 10 "What is this?") (after_create r).

Definition after_analysis (r : Redis) : World :=
  snd (analyze_personality_adaptations clock_ex tok_ex (after_ten r)).

(** A table holding one session of ten assistant messages, cache empty. *)
Definition assistant_message (k : nat) : Message :=
  {| role := "assistant"; content := label k; timestamp := 0; metadata := ∅ |}.

Definition assistant_row : Row :=
  {| r_user_id := 7;
     r_conversation_history := map assistant_message (seq 1 10);
     r_current_story_context := ∅;
     r_learning_progress := ∅;
     r_personality_adaptations := ∅;
     r_created_at := Some 0%Z;
     r_last_activity := Some 0%Z;
     r_expires_at := 86400 |}.

Definition assistant_world (r : Redis) : World :=
  {| db := {[ tok_ex := assistant_row ]}; redis := r; ticks := 0; issued := 1;
     db_aware := false; db_now := clock_ex |}.

(** A table holding one session of ten user messages, with the given
    adaptations. *)
Definition question (k : nat) : Message :=
  {| role := "user"; content := "What is this?"; timestamp := Z.of_nat k;
     metadata := ∅ |}.

Definition ten_row (adaptations : Dict) : Row :=
  {| r_user_id := 7;
     r_conversation_history := map question (seq 1 10);
     r_current_story_context := ∅;
     r_learning_progress := ∅;
     r_personality_adaptations := adaptations;
     r_created_at := Some 0%Z;
     r_last_activity := Some 10%Z;
     r_expires_at := 86400 |}.

Definition ten_world (adaptations : Dict) (r : Redis) : World :=
  {| db := {[ tok_ex := ten_row adaptations ]}; redis := r;
     ticks := 11; issued := 1;
     db_aware := false; db_now := clock_ex |}.

(** A session whose only copies expired at time 0. *)
Definition expired_row : Row :=
  {| r_user_id := 7;
     r_conversation_history := [hi_message 0];
     r_current_story_context := ∅;
     r_learning_progress := ∅;
     r_personality_adaptations := ∅;
     r_created_at := Some (-86400)%Z;
     r_last_activity := Some (-1)%Z;
     r_expires_at := 0 |}.

Definition expired_world : World :=
  {| db := {[ tok_ex := expired_row ]};
     redis := Connected {[ cache_key tok_ex := session_data (of_row tok_ex expired_row) ]};
     ticks := 0; issued := 1;
     db_aware := false; db_now := clock_ex |}.




(** Two progress updates with disjoint keys after [create_session(7)]. *)
Definition after_two_updates (r : Redis) : World :=
  snd (update_learning_progress clock_ex tok_ex {[ "b" := JNum 2 ]}
         (snd (update_learning_progress clock_ex tok_ex {[ "a" := JNum 1 ]}
                 (after_create r)))).

(** A table holding one session of three user messages. *)
Definition abc_row : Row :=
  {| r_user_id := 7;
     r_conversation_history :=
       [ {| role := "user"; content := "a"; timestamp := 0; metadata := ∅ |};
         {| role := "user"; content := "b"; timestamp := 1; metadata := ∅ |};
         {| role := "user"; content := "c"; timestamp := 2; metadata := ∅ |} ];
     r_current_story_context := ∅;
     r_learning_progress := ∅;
     r_personality_adaptations := ∅;
     r_created_at := Some 0%Z;
     r_last_activity := Some 2%Z;
     r_expires_at := 86400 |}.

Definition abc_world (r : Redis) : World :=
  {| db := {[ tok_ex := abc_row ]}; redis := r; ticks := 3; issued := 1;
     db_aware := false; db_now := clock_ex |}.

Definition tone_message (c : string) : Message :=
  {| role := "user"; content := c; timestamp := 0; metadata := ∅ |}.

(** ** Personalized recommendations *)

Section Recommendations.
Variable utc : nat -> Z.

(** [d.get(k, default) == v] for a string [v] that differs from [default]. *)
Definition str_is (d : Dict) (k v : string) : bool :=
  match d !! k with
  | Some (JStr s) => String.eqb s v
  | _ => false
  end.

(** Truth value of a JSON value. *)
Definition truthy (v : JValue) : bool :=
  match v with
  | JNull => false
  | JBool b => b
  | JNum n => negb (n =? 0)%Z
  | JStr s => negb (String.eqb s EmptyString)
  | JIso _ => true
  | JArr l => match l with [] => false | _ => true end
  | JObj kvs => match kvs with [] => false | _ => true end
  end.

(** [if d.get(k):] *)
Definition flag (d : Dict) (k : string) : bool :=
  match d !! k with Some v => truthy v | None => false end.

Definition _recommend_story_preferences (adaptations : Dict) : gmap string string :=
  let preferences : gmap string string :=
    <["interaction_frequency" := "moderate"]>
      (<["detail_level" := "balanced"]> (<["pace" := "moderate"]> ∅)) in
  let preferences :=
    if str_is adaptations "communication_preference" "detailed" then
      <["interaction_frequency" := "high"]> (<["detail_level" := "high"]> preferences)
    else if str_is adaptations "communication_preference" "concise" then
      <["pace" := "fast"]> (<["detail_level" := "low"]> preferences)
    else preferences in
  let preferences :=
    if str_is adaptations "engagement_style" "inquisitive" then
      <["interaction_frequency" := "high"]> preferences
    else if str_is adaptations "engagement_style" "declarative" then
      <["interaction_frequency" := "low"]> preferences
    else preferences in
  if str_is adaptations "pacing_preference" "fast" then
    <["pace" := "fast"]> preferences
  else if str_is adaptations "pacing_preference" "thoughtful" then
    <["detail_level" := "high"]> (<["pace" := "slow"]> preferences)
  else preferences.

Definition _recommend_interaction_style (adaptations : Dict) : gmap string string :=
  let style : gmap string string :=
    <["question_frequency" := "balanced"]>
      (<["explanation_depth" := "moderate"]> (<["tone" := "encouraging"]> ∅)) in
  let style :=
    if str_is adaptations "emotional_tone" "needs_support" then
      <["explanation_depth" := "detailed"]> (<["tone" := "supportive"]> style)
    else if str_is adaptations "emotional_tone" "optimistic" then
      <["question_frequency" := "high"]> (<["tone" := "enthusiastic"]> style)
    else style in
  if str_is adaptations "inferred_learning_style" "visual" then
    <["visual_elements" := "high"]> style
  else if str_is adaptations "inferred_learning_style" "analytical" then
    <["logical_structure" := "high"]> (<["explanation_depth" := "detailed"]> style)
  else if str_is adaptations "inferred_learning_style" "practical" then
    <["hands_on_activities" := "high"]> (<["examples" := "high"]> style)
  else style.

Definition _recommend_content_delivery (adaptations learning_progress : Dict)
  : gmap string string :=
  let delivery : gmap string string :=
    <["complexity_progression" := "gradual"]>
      (<["repetition_frequency" := "moderate"]> (<["chunk_size" := "medium"]> ∅)) in
  let delivery :=
    if flag learning_progress "struggles_identified" then
      <["repetition_frequency" := "high"]> (<["chunk_size" := "small"]> delivery)
    else delivery in
  let delivery :=
    if flag learning_progress "fast_learner_indicators" then
      <["complexity_progression" := "accelerated"]> (<["chunk_size" := "large"]> delivery)
    else delivery in
  if str_is adaptations "communication_preference" "concise" then
    <["chunk_size" := "small"]> delivery
  else if str_is adaptations "communication_preference" "detailed" then
    <["chunk_size" := "large"]> delivery
  else delivery.

(** [all(len(msg["content"]) < 50 for msg in recent if msg["role"] == "user")] *)
Definition recent_user_messages_short (recent : list Message) : bool :=
  forallb (fun msg => (String.length (content msg) <? 50)%nat)
    (List.filter (fun msg => String.eqb (role msg) "user") recent).

Definition _recommend_engagement_strategies
    (adaptations : Dict) (conversation_history : list Message) : list string :=
  let strategies : list string := [] in
  let strategies :=
    if str_is adaptations "engagement_style" "inquisitive" then
      (strategies ++ ["Include more interactive questions";
                      "Provide opportunities for exploration";
                      "Encourage hypothesis formation"])%list
    else if str_is adaptations "engagement_style" "declarative" then
      (strategies ++ ["Provide clear, definitive explanations";
                      "Use more direct instruction";
                      "Include summary statements"])%list
    else strategies in
  let strategies :=
    if str_is adaptations "emotional_tone" "needs_support" then
      (strategies ++ ["Provide more encouragement";
                      "Break down complex concepts further";
                      "Celebrate small wins"])%list
    else if str_is adaptations "emotional_tone" "optimistic" then
      (strategies ++ ["Introduce more challenges";
                      "Provide advanced extensions";
                      "Encourage peer collaboration"])%list
    else strategies in
  if (10 <? length conversation_history)%nat then
    if recent_user_messages_short (last_n 10 conversation_history) then
      (strategies ++ ["Try more engaging, open-ended questions"])%list
    else strategies
  else strategies.


Record Recommendations : Type := mkRecommendations {
  story_preferences : gmap string string;
  interaction_style : gmap string string;
  content_delivery : gmap string string;
  engagement_strategies : list string
}.

(** [None] stands for the empty dictionary returned when no session is
    found. *)
Definition get_personalized_recommendations (tok : string)
  : M (option Recommendations) :=
  let* session := get_session utc tok in
  match session with
  | None => ret None
  | Some s =>
      let adaptations := personality_adaptations s in
      let learning_progress := learning_progress s in
      let conversation_history := conversation_history s in
      ret (Some
        {| story_preferences := _recommend_story_preferences adaptations;
           interaction_style := _recommend_interaction_style adaptations;
           content_delivery :=
             _recommend_content_delivery adaptations learning_progress;
           engagement_strategies :=
             _recommend_engagement_strategies adaptations conversation_history |})
  end.

End Recommendations.

(** ** Calls and the elementary changes they are made of *)

Section Calls.
Variable utc : nat -> Z.
Variable uuid4 : nat -> string.

(** *** The elementary changes the operations are made of *)

(** The hash Redis holds for [tok], if it is connected and has one. *)
Definition cache_at (tok : string) (w : World) : option Hash :=
  match redis w with
  | Connected st => st !! cache_key tok
  | _ => None
  end.

(** The world after [_add_message_to_cache]. *)
Definition cache_appended (tok : string) (m : Message) (w : World) : World :=
  match redis w with
  | Connected st =>
      let h := default empty_hash (st !! cache_key tok) in
      set_redis (Connected
        (<[cache_key tok :=
             hset_conversation_history
               (append_trim (default [] (h_conversation_history h)) m) h]> st)) w
  | _ => w
  end.

(** The row [create_session] inserts. *)
Definition new_row (uid expires created : Z) : Row :=
  {| r_user_id := uid;
     r_conversation_history := [];
     r_current_story_context := ∅;
     r_learning_progress := ∅;
     r_personality_adaptations := ∅;
     r_created_at := Some created;
     r_last_activity := None;
     r_expires_at := expires |}.

(** [s] is what a read of [tok] serves in [w]: the row, or the hash. *)
Definition served (tok : string) (w : World) (s : UserSession) : Prop :=
  session_token s = tok /\
  ((tracked s = true /\ exists r, db w !! tok = Some r /\ s = of_row tok r) \/
   (tracked s = false /\
    exists h uid e,
      cache_at tok w = Some h /\
      h_user_id h = Some uid /\ h_expires_at h = Some e /\
      s = session_of_hash tok uid e h)).

(** [s'] is [s] after the assignments an operation makes: the token,
    the owner, the creation time and the expiry are never assigned, and
    the history is kept or extended by [append_trim]. *)
Definition assigned (s s' : UserSession) : Prop :=
  tracked s' = tracked s /\ session_token s' = session_token s /\
  user_id s' = user_id s /\ created_at s' = created_at s /\
  expires_at s' = expires_at s /\
  (conversation_history s' = conversation_history s \/
   exists m, conversation_history s' = append_trim (conversation_history s) m).

(** [r'] is [r] after an UPDATE the service emits: the owner, the
    creation time and the expiry are never written, and the history is
    kept or extended by [append_trim]. *)
Definition updated (r r' : Row) : Prop :=
  r_user_id r' = r_user_id r /\ r_created_at r' = r_created_at r /\
  r_expires_at r' = r_expires_at r /\
  (r_conversation_history r' = r_conversation_history r \/
   exists m, r_conversation_history r'
             = append_trim (r_conversation_history r) m).

(** One elementary change of the world by an operation on [tok]: the
    counters advance; the hash of [tok] is deleted, or rewritten from
    its row; a new row with an empty history is stored under an unused
    token; the row of [tok] is updated; a session served from the
    cache is written back to the cache after its assignments; a message
    is appended to the cached history. *)
Inductive step (tok : string) (w : World) : World -> Prop :=
| step_count t i :
    step tok w (set_issued i (set_ticks t w))
| step_purge st :
    redis w = Connected st ->
    step tok w (set_redis (Connected (delete (cache_key tok) st)) w)
| step_fill st row :
    redis w = Connected st -> db w !! tok = Some row ->
    step tok w
      (set_redis
         (Connected (<[cache_key tok := session_data (of_row tok row)]> st)) w)
| step_create uid t :
    db w !! tok = None ->
    step tok w
      (set_db (<[tok := new_row uid (utc t + session_lifetime) (db_now w (S t))]>
                 (db w)) w)
| step_update row row' :
    db w !! tok = Some row -> updated row row' ->
    step tok w (set_db (<[tok := row']> (db w)) w)
| step_cache_write st s s' :
    redis w = Connected st ->
    served tok w s -> tracked s = false -> assigned s s' ->
    step tok w
      (set_redis (Connected (<[cache_key tok := session_data s']> st)) w)
| step_cache_append m :
    step tok w (cache_appended tok m w).

(** *** Runs of service calls *)

Inductive Call : Type :=
| CreateSession (uid : Z)
| GetSession (tok : string)
| AddMessage (tok rl ct : string) (md : option Dict)
| GetHistory (tok : string) (limit : option Z)
| UpdateProgress (tok : string) (progress_data : Dict)
| UpdateStory (tok : string) (story_context : Dict)
| Analyze (tok : string)
| Recommend (tok : string).

(** The world after a call; what the call returns is dropped. *)
Definition exec (c : Call) (w : World) : World :=
  match c with
  | CreateSession uid => snd (create_session utc uuid4 uid w)
  | GetSession tok => snd (get_session utc tok w)
  | AddMessage tok rl ct md => snd (add_conversation_message utc tok rl ct md w)
  | GetHistory tok limit => snd (get_conversation_history utc tok limit w)
  | UpdateProgress tok p => snd (update_learning_progress utc tok p w)
  | UpdateStory tok c => snd (update_story_context utc tok c w)
  | Analyze tok => snd (analyze_personality_adaptations utc tok w)
  | Recommend tok => snd (get_personalized_recommendations utc tok w)
  end.

(** The token a call works on. *)
Definition target (c : Call) (w : World) : string :=
  match c with
  | CreateSession _ => uuid4 (issued w)
  | GetSession tok | AddMessage tok _ _ _ | GetHistory tok _
  | UpdateProgress tok _ | UpdateStory tok _ | Analyze tok | Recommend tok => tok
  end.

(** The world after the calls [cs], made one after the other. *)
Definition run_calls (cs : list Call) (w : World) : World :=
  foldl (fun w c => exec c w) w cs.

End Calls.

(** ** Invariants of the store *)

(** [w'] differs from [w] at most in the row and the hash of [tok]. *)
Definition same_elsewhere (tok : string) (w w' : World) : Prop :=
  forall tok', tok' <> tok ->
    db w' !! tok' = db w !! tok' /\ cache_at tok' w' = cache_at tok' w.

(** Rows are kept, with their owner, creation time and expiry. *)
Definition rows_kept (w w' : World) : Prop :=
  forall tok r, db w !! tok = Some r ->
    exists r', db w' !! tok = Some r' /\
      r_user_id r' = r_user_id r /\
      r_created_at r' = r_created_at r /\
      r_expires_at r' = r_expires_at r.

(** No stored history is longer than the bound. *)
Definition bounded (w : World) : Prop :=
  (forall tok r, db w !! tok = Some r ->
     (length (r_conversation_history r) <= max_conversation_length)%nat) /\
  (forall st k h l, redis w = Connected st -> st !! k = Some h ->
     h_conversation_history h = Some l ->
     (length l <= max_conversation_length)%nat).

(** A hash that carries an expiry belongs to a row with that expiry and
    the same owner. *)
Definition coherent (w : World) : Prop :=
  forall tok h e, cache_at tok w = Some h -> h_expires_at h = Some e ->
    exists r, db w !! tok = Some r /\ r_expires_at r = e /\
              forall uid, h_user_id h = Some uid -> uid = r_user_id r.



(** The record [_analyze_interaction_patterns] builds. *)
Definition adaptation_record (msgs : list Message) (pacing : option string)
    (now : Z) : Dict :=
  <["message_count_analyzed" := JNum (Z.of_nat (length msgs))]>
    (<["analysis_timestamp" := JIso now]>
       (set_opt "pacing_preference" pacing
          (set_opt "inferred_learning_style" (inferred_learning_style msgs)
             (<["emotional_tone" := JStr (emotional_tone msgs)]>
                (<["engagement_style" := JStr (engagement_style msgs)]>
                   (<["communication_preference" :=
                        JStr (communication_preference msgs)]> ∅)))))).

(** The values Python's [sum] adds to an integer: numbers and booleans. *)
Definition summable (v : JValue) : bool :=
  match v with JNum _ | JBool _ => true | _ => false end.

(** ** Concrete sessions and runs of calls *)

(** The row [create_session(7)] stores in the empty table. *)
Definition created_row : Row :=
  {| r_user_id := 7;
     r_conversation_history := [];
     r_current_story_context := ∅;
     r_learning_progress := ∅;
     r_personality_adaptations := ∅;
     r_created_at := Some 1%Z;
     r_last_activity := None;
     r_expires_at := 86400 |}.

(** A user message that carries a response time. *)
Definition timed_message (v : JValue) : Message :=
  {| role := "user"; content := "ok"; timestamp := 0;
     metadata := {[ "response_time" := v ]} |}.

(** Nine assistant messages and one timed user message. *)
Definition timed_row (v : JValue) : Row :=
  {| r_user_id := 7;
     r_conversation_history :=
       (map assistant_message (seq 1 9) ++ [timed_message v])%list;
     r_current_story_context := ∅;
     r_learning_progress := ∅;
     r_personality_adaptations := ∅;
     r_created_at := Some 0%Z;
     r_last_activity := Some 0%Z;
     r_expires_at := 86400 |}.

Definition timed_world (v : JValue) (r : Redis) : World :=
  {| db := {[ tok_ex := timed_row v ]}; redis := r; ticks := 0; issued := 1;
     db_aware := false; db_now := clock_ex |}.

(** Create a session, append to it, update it, analyse it. *)
Definition calls_ex : list Call :=
  [CreateSession 7; AddMessage tok_ex "user" "hi" None;
   UpdateStory tok_ex {[ "chapter" := JNum 1 ]};
   UpdateProgress tok_ex {[ "level" := JNum 2 ]};
   Analyze tok_ex; GetHistory tok_ex None; Recommend tok_ex].

(** * Properties *)

Section Properties.

Variable utc : nat -> Z.

Ltac run :=
  unfold get_session, db_query, _get_cached_session, when_client,
         _cache_session, _add_message_to_cache, db_commit,
         utcnow, func_now, redis_client,
         bind, gets, modify, ret, set_redis, set_db, set_ticks, set_issued in *;
  simpl in *.

Ltac cases := repeat (case_match; simpl in *; simplify_eq).

(** ** What [get_session] does to the world *)

Lemma get_session_db tok w r w' :
  get_session utc tok w = (r, w') -> db w' = db w.
Proof.
  destruct w as [d rd t i aw dn]. run.
  intros H. cases; reflexivity.
Qed.

Lemma get_session_ticks tok w r w' :
  get_session utc tok w = (r, w') -> (ticks w <= ticks w' <= ticks w + 2)%nat.
Proof.
  destruct w as [d rd t i aw dn]. run.
  intros H. cases; simpl; lia.
Qed.

Lemma get_session_origin tok w s w' :
  get_session utc tok w = (Some s, w') ->
  session_token s = tok /\
  match redis w with
  | NoClient => redis w' = NoClient /\ tracked s = true
  | Unreachable => redis w' = Unreachable /\ tracked s = true
  | Connected _ => exists st', redis w' = Connected st'
  end.
Proof.
  destruct w as [d rd t i aw dn]. run.
  intros H. cases; simpl; eauto.
Qed.

(** Without a connected cache a read is the table query, and nothing
    raised by a Redis call reaches the caller. *)
Lemma get_session_no_cache tok w :
  no_cache w -> get_session utc tok w = db_query utc tok w.
Proof.
  unfold no_cache. destruct w as [d rd t i aw dn]. simpl. intros Hn. run.
  destruct rd; [| |contradiction]; cases; reflexivity.
Qed.

(** The cache is left alone, or an expired hash is purged, or the hash
    is (re)written from the table row; a row without [last_activity]
    is not written to the cache. *)
Lemma get_session_cache tok w r w' :
  get_session utc tok w = (r, w') ->
  redis w' = redis w \/
  exists st, redis w = Connected st /\
    ((r = None /\ redis w' = Connected (delete (cache_key tok) st)) \/
     (exists row, db w !! tok = Some row /\ r = Some (of_row tok row) /\
        redis w' = Connected (<[cache_key tok := session_data (of_row tok row)]> st)) \/
     (exists row, db w !! tok = Some row /\ r = Some (of_row tok row) /\
        r_last_activity row = None /\
        redis w' = Connected (delete (cache_key tok) st))).
Proof.
  destruct w as [d rd t i aw dn]. run.
  intros H. cases; simpl; eauto.
  all: right; eexists; split; [reflexivity|].
  all: try (left; split; reflexivity).
  all: try (right; left; eexists; split; [eassumption|]; split; [reflexivity|];
            simpl in *; simplify_eq; rewrite ?insert_delete_eq; reflexivity).
  all: right; right; eexists; split; [eassumption|]; split; [reflexivity|];
       split; [assumption|reflexivity].
Qed.

(** An expired session is not found. *)
Lemma get_session_expired tok w :
  (forall n, utc n <= utc (S n))%Z ->
  (forall r, db w !! tok = Some r -> (r_expires_at r <= utc (ticks w))%Z) ->
  (forall st h e, redis w = Connected st -> st !! cache_key tok = Some h ->
                  h_expires_at h = Some e -> (e <= utc (ticks w))%Z) ->
  fst (get_session utc tok w) = None.
Proof.
  intros Hmono Hdb Hc. pose proof (Hmono (ticks w)) as Hm.
  destruct w as [d rd t i aw dn]. run.
  assert (Hq : forall t', (utc t <= utc t')%Z ->
            match d !! tok with
            | Some r => if (utc t' <? r_expires_at r)%Z then true else false
            | None => false
            end = false).
  { intros t' Ht'. destruct (d !! tok) as [r|] eqn:E; [|reflexivity].
    specialize (Hdb r eq_refl).
    destruct (Z.ltb_spec (utc t') (r_expires_at r)); [lia|reflexivity]. }
  destruct rd as [| |st]; simpl in *.
  - specialize (Hq t ltac:(lia)). cases; done.
  - specialize (Hq t ltac:(lia)). cases; done.
  - destruct (st !! cache_key tok) as [h|] eqn:E; simpl.
    + destruct (h_expires_at h) as [e|] eqn:Ee; simpl.
      * specialize (Hc st h e eq_refl E Ee).
        destruct aw; simpl.
        -- specialize (Hq (S t) Hm). cases; done.
        -- destruct (Z.leb_spec e (utc t)); [|lia]. simpl.
           specialize (Hq (S t) Hm). cases; done.
      * specialize (Hq t ltac:(lia)). cases; done.
    + specialize (Hq t ltac:(lia)). cases; done.
Qed.

(** ** The two updates as instances of one shape *)

Lemma update_learning_progress_mutate tok p :
  update_learning_progress utc tok p =
  mutate utc (fun s => set_learning_progress (p ∪ learning_progress s) s)
    (fun s => if dict_truthy (learning_progress s) then [] else [LearningProgress])
    tok.
Proof. reflexivity. Qed.

Lemma update_story_context_mutate tok c :
  update_story_context utc tok c =
  mutate utc (set_current_story_context c) (fun _ => [CurrentStoryContext]) tok.
Proof. reflexivity. Qed.

(** ** Slicing *)

Lemma slice_from_neg_most_recent {A} (k : Z) (l : list A) :
  (0 < k)%Z -> slice_from_neg k l = most_recent (Z.to_nat k) l.
Proof.
  intros Hk. unfold slice_from_neg, most_recent.
  destruct (Z.ltb_spec 0 k); [|lia].
  rewrite take_reverse, reverse_involutive. reflexivity.
Qed.

Lemma most_recent_all {A} (n : nat) (l : list A) :
  (length l <= n)%nat -> most_recent n l = l.
Proof.
  intros Hn. unfold most_recent.
  rewrite take_ge by (rewrite length_reverse; lia).
  apply reverse_involutive.
Qed.

Lemma most_recent_length {A} (n : nat) (l : list A) :
  length (most_recent n l) = Nat.min n (length l).
Proof.
  unfold most_recent. rewrite length_reverse, length_take, length_reverse.
  reflexivity.
Qed.

Lemma most_recent_suffix {A} (n : nat) (l : list A) :
  exists older, l = (older ++ most_recent n l)%list.
Proof.
  unfold most_recent. rewrite take_reverse, reverse_involutive.
  exists (take (length l - n) l). symmetry. apply take_drop.
Qed.

(** ** Claims *)

(** On a database with naive datetimes, a hash found expired in Redis
    during a read is deleted from Redis. *)
Lemma expired_hash_is_purged tok w :
  db_aware w = false ->
  (forall n, utc n <= utc (S n))%Z ->
  (forall r, db w !! tok = Some r -> (r_expires_at r <= utc (ticks w))%Z) ->
  (forall st h e, redis w = Connected st -> st !! cache_key tok = Some h ->
                  h_expires_at h = Some e -> (e <= utc (ticks w))%Z) ->
  fst (get_session utc tok w) = None /\
  (forall st h e, redis w = Connected st -> st !! cache_key tok = Some h ->
                  h_expires_at h = Some e ->
     redis (snd (get_session utc tok w)) = Connected (delete (cache_key tok) st)).
Proof.
  intros Haw Hmono Hdb Hc. split; [apply get_session_expired; assumption|].
  intros st h e Hr Hh He. pose proof (Hc st h e Hr Hh He) as Hle.
  pose proof (Hmono (ticks w)) as Hm.
  destruct w as [d rd t i aw dn]. simpl in *. subst rd aw. run.
  rewrite Hh. simpl. rewrite He. simpl.
  destruct (Z.leb_spec e (utc t)); [|lia]. simpl.
  destruct (d !! tok) as [r|] eqn:Er; [|reflexivity].
  specialize (Hdb r eq_refl).
  destruct (Z.ltb_spec (utc (S t)) (r_expires_at r)); [lia|reflexivity].
Qed.

(** On a database with timezone-aware datetimes a read never deletes a
    hash: the comparison that guards the deletion raises. *)
Lemma aware_read_deletes_nothing tok w st h :
  db_aware w = true ->
  redis w = Connected st -> st !! cache_key tok = Some h ->
  exists st' h', redis (snd (get_session utc tok w)) = Connected st' /\
                 st' !! cache_key tok = Some h'.
Proof.
  intros Haw Hr Hh.
  destruct w as [d rd t i aw dn]. simpl in *. subst rd aw. run.
  rewrite Hh. simpl.
  cases; simpl; eexists _, _; (split; [reflexivity|]);
    rewrite ?lookup_insert_eq; eauto.
Qed.

(** What a read may have done to the stores when it found [s]: the
    table is as before, and the cache is as before, or now holds the
    copy of the table row that was read, or lost an expired hash that
    could not be replaced because the row has no [last_activity]. *)
Lemma found_session_stores tok w s w1 :
  get_session utc tok w = (Some s, w1) ->
  db w1 = db w /\
  (redis w1 = redis w \/
   (exists st row, redis w = Connected st /\ db w !! tok = Some row /\
      s = of_row tok row /\
      redis w1 = Connected (<[cache_key tok := session_data s]> st)) \/
   (exists st row, redis w = Connected st /\ db w !! tok = Some row /\
      s = of_row tok row /\ last_activity s = None /\
      redis w1 = Connected (delete (cache_key tok) st))).
Proof.
  intros Hg. split; [eapply get_session_db; exact Hg|].
  destruct (get_session_cache _ _ _ _ Hg)
    as [Hsame|(st & Hst & [[Hn _]|[Hfill|Hdel]])].
  - left; exact Hsame.
  - discriminate Hn.
  - destruct Hfill as (row & Hrow & Hs & Hw). right. left. exists st, row.
    injection Hs as ->. auto.
  - destruct Hdel as (row & Hrow & Hs & Hla & Hw). right. right. exists st, row.
    injection Hs as ->. auto.
Qed.

Lemma found_session_adaptations tok w s w1 :
  get_session utc tok w = (Some s, w1) ->
  forall st1 h1, redis w1 = Connected st1 -> st1 !! cache_key tok = Some h1 ->
    (exists st, redis w = Connected st /\ st !! cache_key tok = Some h1) \/
    h_personality_adaptations h1 = Some (personality_adaptations s).
Proof.
  intros Hg st1 h1 Hr1 Hh1.
  destruct (found_session_stores _ _ _ _ Hg) as [_ [Hsame|[Hfill|Hdel]]].
  - left. exists st1. rewrite <- Hsame. auto.
  - destruct Hfill as (st & row & Hr & _ & _ & Hw).
    rewrite Hw in Hr1. injection Hr1 as <-.
    rewrite lookup_insert_eq in Hh1. injection Hh1 as <-. right. reflexivity.
  - destruct Hdel as (st & row & Hr & _ & _ & _ & Hw).
    rewrite Hw in Hr1. injection Hr1 as <-.
    rewrite lookup_delete_eq in Hh1. discriminate Hh1.
Qed.

(** C6. With fewer than ten messages in the history of the session that
    was found, [analyze_personality_adaptations] returns the session's
    adaptations as they are; the table is unchanged, and the cache is
    unchanged, or was filled by the read with the row's copy, or lost
    an expired hash that the read could not replace (the row has no
    [last_activity]), so every adaptation mapping stored for the token
    afterwards was stored before or is the session's own. *)
Theorem analysis_skipped_below_threshold tok w s w1 :
  get_session utc tok w = (Some s, w1) ->
  (length (conversation_history s) < personality_analysis_threshold)%nat ->
  analyze_personality_adaptations utc tok w = (Ok (personality_adaptations s), w1) /\
  db w1 = db w /\
  (redis w1 = redis w \/
   (exists st row, redis w = Connected st /\ db w !! tok = Some row /\
      s = of_row tok row /\
      redis w1 = Connected (<[cache_key tok := session_data s]> st)) \/
   (exists st row, redis w = Connected st /\ db w !! tok = Some row /\
      s = of_row tok row /\ last_activity s = None /\
      redis w1 = Connected (delete (cache_key tok) st))) /\
  (forall st1 h1, redis w1 = Connected st1 -> st1 !! cache_key tok = Some h1 ->
     (exists st, redis w = Connected st /\ st !! cache_key tok = Some h1) \/
     h_personality_adaptations h1 = Some (personality_adaptations s)).
Proof.
  intros Hg Hlen.
  destruct (found_session_stores _ _ _ _ Hg) as [Hdb Hcache].
  split; [|split; [exact Hdb|split; [exact Hcache|]]].
  - unfold analyze_personality_adaptations, bind at 1. rewrite Hg.
    destruct (Nat.ltb_spec (length (conversation_history s))
                personality_analysis_threshold); [reflexivity|lia].
  - eapply found_session_adaptations; exact Hg.
Qed.

Lemma recent_user_messages_spec history :
  Forall (fun msg => role msg = "user") (recent_user_messages history) /\
  recent_user_messages history `sublist_of` last_n 20 history.
Proof.
  unfold recent_user_messages. split.
  - apply Forall_forall. intros m Hm. apply list_elem_of_In, filter_In in Hm as [_ Hm].
    apply String.eqb_eq. exact Hm.
  - generalize (last_n 20 history) as l. induction l as [|m l IH]; simpl.
    + constructor.
    + destruct (String.eqb (role m) "user"); [apply sublist_skip|apply sublist_cons];
        exact IH.
Qed.

(** C10 (as amended).  For a found session with at least ten messages:
    when none of the last twenty has role "user", the existing
    adaptations are returned, the table is not written, and the only
    cache writes are those of [get_session]: it fills a missing hash
    from the table row, or deletes an expired hash that it cannot
    replace (the row has no [last_activity]); otherwise the adaptations
    returned are those the analyzer computes from exactly the user-role
    messages among the last twenty. *)
Theorem analysis_uses_recent_user_messages tok w s w1 :
  get_session utc tok w = (Some s, w1) ->
  (personality_analysis_threshold <= length (conversation_history s))%nat ->
  (recent_user_messages (conversation_history s) = [] ->
     analyze_personality_adaptations utc tok w
       = (Ok (personality_adaptations s), w1) /\
     db w1 = db w /\
     (redis w1 = redis w \/
      (exists st row, redis w = Connected st /\ db w !! tok = Some row /\
         s = of_row tok row /\
         redis w1 = Connected (<[cache_key tok := session_data s]> st)) \/
      (exists st row, redis w = Connected st /\ db w !! tok = Some row /\
         s = of_row tok row /\ last_activity s = None /\
         redis w1 = Connected (delete (cache_key tok) st)))) /\
  (recent_user_messages (conversation_history s) <> [] ->
     fst (analyze_personality_adaptations utc tok w)
       = fst (_analyze_interaction_patterns utc
                (recent_user_messages (conversation_history s)) w1)) /\
  Forall (fun msg => role msg = "user")
         (recent_user_messages (conversation_history s)) /\
  recent_user_messages (conversation_history s)
    `sublist_of` last_n 20 (conversation_history s).
Proof.
  intros Hg Hlen.
  assert (Hnlt : (length (conversation_history s) <? personality_analysis_threshold)%nat
                 = false) by (apply Nat.ltb_ge; exact Hlen).
  split; [|split; [|apply recent_user_messages_spec]].
  - intros Hnone.
    destruct (found_session_stores _ _ _ _ Hg) as [Hdb Hcache].
    split; [|split; assumption].
    unfold analyze_personality_adaptations, bind at 1. rewrite Hg, Hnlt, Hnone.
    reflexivity.
  - intros Hsome.
    unfold analyze_personality_adaptations, bind at 1. rewrite Hg, Hnlt.
    destruct (recent_user_messages (conversation_history s)) as [|m ms] eqn:E;
      [congruence|].
    unfold bind at 1.
    destruct (_analyze_interaction_patterns utc (m :: ms) w1) as [[a|e] w2];
      [|reflexivity].
    simpl. unfold bind at 1.
    match goal with |- context [ (if ?c then ?x else ?y) ?w ] =>
      destruct ((if c then x else y) w) end.
    reflexivity.
Qed.

(** C8 (as amended).  [get_conversation_history] returns, for a found
    session, the most recent [limit] entries when [limit] is positive
    (all of them when [limit] is at least the stored length), and the
    whole history when [limit] is 0 or absent; for a token that is
    unknown or whose copies are all expired it returns the empty
    list.  It leaves the world as [get_session] does. *)
Theorem history_limit_semantics tok w limit :
  snd (get_conversation_history utc tok limit w) = snd (get_session utc tok w) /\
  match fst (get_session utc tok w) with
  | Some s =>
      let history := conversation_history s in
      match limit with
      | Some k =>
          ((0 < k)%Z -> fst (get_conversation_history utc tok limit w)
                        = most_recent (Z.to_nat k) history) /\
          ((Z.of_nat (length history) <= k)%Z ->
             fst (get_conversation_history utc tok limit w) = history) /\
          (k = 0%Z -> fst (get_conversation_history utc tok limit w) = history)
      | None => fst (get_conversation_history utc tok limit w) = history
      end
  | None => fst (get_conversation_history utc tok limit w) = []
  end /\
  ((forall n, utc n <= utc (S n))%Z ->
   (forall r, db w !! tok = Some r -> (r_expires_at r <= utc (ticks w))%Z) ->
   (forall st h e, redis w = Connected st -> st !! cache_key tok = Some h ->
                   h_expires_at h = Some e -> (e <= utc (ticks w))%Z) ->
   fst (get_conversation_history utc tok limit w) = []).
Proof.
  assert (Hcases :
    get_conversation_history utc tok limit w =
    (match fst (get_session utc tok w) with
     | None => []
     | Some s => match limit with
                 | Some k => if (k =? 0)%Z then conversation_history s
                             else slice_from_neg k (conversation_history s)
                 | None => conversation_history s
                 end
     end, snd (get_session utc tok w))).
  { unfold get_conversation_history, bind at 1.
    destruct (get_session utc tok w) as [[s|] w1]; simpl; [|reflexivity].
    destruct limit as [k|]; [|reflexivity].
    destruct (k =? 0)%Z; reflexivity. }
  rewrite Hcases. simpl. split; [reflexivity|]. split.
  - destruct (fst (get_session utc tok w)) as [s|]; [|reflexivity].
    destruct limit as [k|]; [|reflexivity]. simpl. repeat split.
    + intros Hk. destruct (Z.eqb_spec k 0); [lia|].
      apply slice_from_neg_most_recent. exact Hk.
    + intros Hk. destruct (Z.eqb_spec k 0); [reflexivity|].
      assert (0 < k)%Z by lia.
      rewrite slice_from_neg_most_recent by assumption.
      apply most_recent_all. lia.
    + intros ->. reflexivity.
  - intros Hmono Hdb Hc.
    rewrite (get_session_expired tok w Hmono Hdb Hc). reflexivity.
Qed.

(** ** The emotional tone *)

Lemma contains_occurrences word text :
  contains word text = true <-> (0 < occurrences word text)%nat.
Proof.
  induction text as [|c text IH]; cbn [contains occurrences].
  - destruct (String.prefix word EmptyString); simpl; split; intros; try lia; done.
  - destruct (String.prefix word (String c text)); simpl.
    + split; intros; [lia|reflexivity].
    + exact IH.
Qed.

(** Each message adds one for every listed word that occurs in it at
    least once, however often. *)
Lemma word_hits_counts_words words msgs :
  word_hits words msgs =
  sum_list (map (fun msg =>
                   length (List.filter
                             (fun word =>
                                (0 <? occurrences word (lower (content msg)))%nat)
                             words))
                msgs).
Proof.
  unfold word_hits. f_equal. apply map_ext. intros msg. f_equal.
  apply filter_ext. intros word.
  destruct (contains word (lower (content msg))) eqn:E.
  - apply contains_occurrences in E. symmetry. apply Nat.ltb_lt. exact E.
  - symmetry. apply Nat.ltb_ge.
    destruct (occurrences word (lower (content msg))) as [|n] eqn:En; [lia|].
    assert (contains word (lower (content msg)) = true)
      by (apply contains_occurrences; lia).
    congruence.
Qed.

(** C7 (as amended).  With P the number of pairs (analysed message,
    positive word) such that the word occurs in the lower-cased content,
    and N the same for the negative words, the analyzer sets
    [emotional_tone] to "optimistic" iff P > 2N, to "needs_support" iff
    N > 2P, and to "neutral" otherwise. *)
Theorem emotional_tone_rule msgs w pacing :
  msgs <> [] ->
  pacing_preference msgs = Ok pacing ->
  let P := word_hits positive_words msgs in
  let N := word_hits negative_words msgs in
  exists a w' tone,
    _analyze_interaction_patterns utc msgs w = (Ok a, w') /\
    a !! "emotional_tone" = Some (JStr tone) /\
    (tone = "optimistic" <-> (2 * N < P)%nat) /\
    (tone = "needs_support" <-> (2 * P < N)%nat) /\
    (tone = "neutral" <-> ~ (2 * N < P)%nat /\ ~ (2 * P < N)%nat).
Proof.
  intros Hne Hp P N.
  destruct msgs as [|m ms]; [congruence|].
  unfold _analyze_interaction_patterns. rewrite Hp.
  unfold bind, utcnow, ret. simpl.
  eexists _, _, (emotional_tone (m :: ms)). split; [reflexivity|]. split.
  - rewrite lookup_insert_ne by done. rewrite lookup_insert_ne by done.
    unfold set_opt.
    destruct pacing; [rewrite lookup_insert_ne by done|];
      (destruct (inferred_learning_style (m :: ms));
         [rewrite lookup_insert_ne by done|]);
      apply lookup_insert_eq.
  - unfold emotional_tone, positive_count, negative_count. fold P N.
    destruct (Nat.ltb_spec (N * 2) P); [|destruct (Nat.ltb_spec (P * 2) N)].
    + repeat split; intros; try lia; try done. 
    + repeat split; intros; try lia; try done.
    + repeat split; intros; try lia; try done.
Qed.

(** ** Appending *)

(** The bound on the stored history holds after every append. *)
Lemma append_trim_length l m :
  (length (append_trim l m) <= max_conversation_length)%nat.
Proof.
  unfold append_trim, last_n.
  destruct (Nat.ltb_spec max_conversation_length (length (l ++ [m])%list)).
  - rewrite length_drop. lia.
  - assumption.
Qed.

(** What is dropped is dropped from the front. *)
Lemma append_trim_suffix l m :
  exists dropped, (l ++ [m])%list = (dropped ++ append_trim l m)%list.
Proof.
  unfold append_trim, last_n.
  destruct (max_conversation_length <? length (l ++ [m])%list)%nat.
  - eexists. symmetry. apply take_drop.
  - exists []. reflexivity.
Qed.

(** ** The history bound without a connected cache *)

Lemma append_trim_last_n l m :
  append_trim l m = last_n max_conversation_length (l ++ [m])%list.
Proof.
  unfold append_trim, last_n.
  destruct (Nat.ltb_spec max_conversation_length (length (l ++ [m])%list));
    [reflexivity|].
  replace (length (l ++ [m])%list - max_conversation_length)%nat with 0%nat by lia.
  reflexivity.
Qed.

Lemma last_n_app_last_n {A} n (l k : list A) :
  last_n n (last_n n l ++ k)%list = last_n n (l ++ k)%list.
Proof.
  unfold last_n. rewrite !length_app, length_drop.
  destruct (Nat.le_gt_cases (length l) n) as [Hle|Hgt].
  - replace (length l - n)%nat with 0%nat by lia. simpl.
    rewrite Nat.sub_0_r. reflexivity.
  - rewrite !drop_app, drop_drop, length_drop. f_equal; f_equal; lia.
Qed.

Lemma foldl_append_trim msgs : forall H,
  msgs <> [] ->
  foldl append_trim H msgs = last_n max_conversation_length (H ++ msgs)%list.
Proof.
  induction msgs as [|m ms IH]; intros H Hne; [congruence|].
  simpl. destruct ms as [|m' ms'].
  - simpl. apply append_trim_last_n.
  - rewrite IH by discriminate. rewrite append_trim_last_n.
    rewrite last_n_app_last_n. rewrite <- app_assoc. reflexivity.
Qed.

Lemma last_n_app_ge {A} n (l k : list A) :
  (n <= length k)%nat -> last_n n (l ++ k)%list = last_n n k.
Proof.
  intros Hn. unfold last_n. rewrite length_app.
  rewrite drop_app_ge by lia. f_equal. lia.
Qed.

Lemma last_n_most_recent {A} n (l : list A) : last_n n l = most_recent n l.
Proof.
  unfold last_n, most_recent. rewrite take_reverse, reverse_involutive.
  reflexivity.
Qed.

Lemma map_last_n {A B} (f : A -> B) n l : map f (last_n n l) = last_n n (map f l).
Proof. unfold last_n. rewrite length_map. symmetry. apply skipn_map. Qed.

End Properties.

(** * Concrete runs *)

Lemma clock_ex_monotone : forall n, (clock_ex n <= clock_ex (S n))%Z.
Proof. intros n. unfold clock_ex. lia. Qed.

(** C1. Redis connected, a fresh session, one [add_conversation_message]:
    the history read back through the service holds the new message
    twice.  The claim says exactly once. *)
Theorem appended_message_is_read_twice :
  fst (get_conversation_history clock_ex tok_ex None (after_hi (Connected ∅)))
  = [hi_message 2; hi_message 2].
Proof. vm_compute. reflexivity. Qed.

(** C2. Redis connected, 101 messages appended to a fresh session: the
    history read back is the last 50 messages, each twice, not the last
    100 messages. *)
Theorem history_after_101_appends_with_cache :
  let history :=
    fst (get_conversation_history clock_ex tok_ex None
           (append_all appended (after_create (Connected ∅)))) in
  map content history = flat_map (fun k => [label k; label k]) (seq 52 50) /\
  map content history <> most_recent 100 appended.
Proof.
  split.
  - vm_compute. reflexivity.
  - vm_compute. discriminate.
Qed.

(** C4. The same three calls (create, append, read the history) return a
    different history with Redis connected than without a client or
    with every Redis call raising. *)
Theorem history_differs_with_and_without_cache :
  fst (get_conversation_history clock_ex tok_ex None (after_hi (Connected ∅)))
    = [hi_message 2; hi_message 2] /\
  fst (get_conversation_history clock_ex tok_ex None (after_hi NoClient))
    = [hi_message 2] /\
  fst (get_conversation_history clock_ex tok_ex None (after_hi Unreachable))
    = [hi_message 2].
Proof. repeat split; vm_compute; reflexivity. Qed.

(** C9. Redis connected, ten user messages (twenty entries in the cached
    history), then an analysis that stores a new adaptation record
    (stamped 33): the session read back still has the [last_activity]
    of the last append (31). *)
Theorem analysis_leaves_last_activity_stale :
  (last_activity <$> fst (get_session clock_ex tok_ex (after_ten (Connected ∅))))
    = Some (Some 31%Z) /\
  ((fun s => (last_activity s,
              personality_adaptations s !! "analysis_timestamp",
              personality_adaptations s !! "message_count_analyzed"))
     <$> fst (get_session clock_ex tok_ex (after_analysis (Connected ∅))))
    = Some (Some 31%Z, Some (JIso 33), Some (JNum 20)).
Proof. split; vm_compute; reflexivity. Qed.


(** C5. A fresh session and two [update_learning_progress] calls with
    the disjoint payloads {a: 1} and {b: 2}: without a connected cache
    the session read back has only the key of the first payload; the
    second update is lost.  With Redis connected both keys are there.
    The claim says both keys are present. *)
Theorem second_progress_update_is_lost :
  (learning_progress <$> fst (get_session clock_ex tok_ex (after_two_updates NoClient)))
    = Some {[ "a" := JNum 1 ]} /\
  (learning_progress <$> fst (get_session clock_ex tok_ex (after_two_updates Unreachable)))
    = Some {[ "a" := JNum 1 ]} /\
  (learning_progress <$>
     fst (get_session clock_ex tok_ex (after_two_updates (Connected ∅))))
    = Some ({[ "b" := JNum 2 ]} ∪ {[ "a" := JNum 1 ]}).
Proof. repeat split; vm_compute; reflexivity. Qed.

(** "great" three times and "hard" once in one message: three
    occurrences against one, yet the tone is not "optimistic". *)
Lemma tone_ignores_repeated_occurrences :
  let msgs := [tone_message "great great great hard"] in
  (2 * occurrence_count negative_words msgs
     < occurrence_count positive_words msgs)%nat /\
  emotional_tone msgs <> "optimistic" /\
  tone_by_occurrences msgs <> emotional_tone msgs.
Proof. repeat split; vm_compute; try lia; discriminate. Qed.

(** [limit = 0] on a history of one message returns that message. *)
Lemma limit_zero_returns_whole_history :
  fst (get_conversation_history clock_ex tok_ex (Some 0%Z) (after_hi NoClient))
    <> most_recent 0 [hi_message 2] /\
  fst (get_conversation_history clock_ex tok_ex (Some 0%Z) (after_hi NoClient))
    = [hi_message 2].
Proof. split; vm_compute; [discriminate|reflexivity]. Qed.

(** Ten assistant messages in the table, Redis connected and empty: the
    analysis returns the existing adaptations and leaves a hash in
    Redis. *)
Lemma analysis_without_user_messages_fills_cache :
  let w := assistant_world (Connected ∅) in
  (length <$> (conversation_history <$> fst (get_session clock_ex tok_ex w)))
    = Some 10%nat /\
  (recent_user_messages <$>
     (conversation_history <$> fst (get_session clock_ex tok_ex w))) = Some [] /\
  redis (snd (analyze_personality_adaptations clock_ex tok_ex w)) <> redis w.
Proof. repeat split; vm_compute; try reflexivity; discriminate. Qed.

(** ** The general statements at concrete inputs *)

Lemma analysis_skipped_witness :
  fst (analyze_personality_adaptations clock_ex tok_ex (after_hi (Connected ∅)))
  = Ok ∅.
Proof.
  edestruct (analysis_skipped_below_threshold clock_ex tok_ex
               (after_hi (Connected ∅))) as [Hr _].
  - vm_compute. reflexivity.
  - vm_compute. lia.
  - rewrite Hr. reflexivity.
Defined.

Lemma emotional_tone_witness :
  exists a w',
    _analyze_interaction_patterns clock_ex
      [tone_message "I love this, it's great!"] (boot NoClient) = (Ok a, w') /\
    a !! "emotional_tone" = Some (JStr "optimistic").
Proof.
  edestruct (emotional_tone_rule clock_ex
               [tone_message "I love this, it's great!"] (boot NoClient))
    as (a & w' & tone & Hr & Ht & Hopt & _).
  - discriminate.
  - vm_compute. reflexivity.
  - exists a, w'. split; [exact Hr|].
    rewrite Ht. f_equal. f_equal. apply Hopt. vm_compute. lia.
Defined.

Lemma history_limit_witness :
  map content
    (fst (get_conversation_history clock_ex tok_ex (Some 2%Z) (abc_world NoClient)))
    = ["b"; "c"] /\
  fst (get_conversation_history clock_ex tok_ex (Some 2%Z) expired_world) = [].
Proof.
  split.
  - destruct (history_limit_semantics clock_ex tok_ex (abc_world NoClient) (Some 2%Z))
      as (_ & H & _).
    destruct (fst (get_session clock_ex tok_ex (abc_world NoClient))) as [s|] eqn:E;
      vm_compute in E; [|discriminate].
    injection E as <-. destruct H as [H _]. rewrite H by lia.
    vm_compute. reflexivity.
  - destruct (history_limit_semantics clock_ex tok_ex expired_world (Some 2%Z))
      as (_ & _ & H).
    apply H.
    + exact clock_ex_monotone.
    + intros r Hr. unfold expired_world in Hr; cbn [db] in Hr.
      apply lookup_singleton_Some in Hr as [_ <-].
      vm_compute. discriminate.
    + intros st h e Hst Hh He. unfold expired_world in Hst; cbn [redis] in Hst.
      injection Hst as <-.
      apply lookup_singleton_Some in Hh as [_ <-]. injection He as <-.
      vm_compute. discriminate.
Defined.

Lemma analysis_recent_user_messages_witness :
  fst (analyze_personality_adaptations clock_ex tok_ex (assistant_world NoClient))
    = Ok ∅ /\
  db (snd (analyze_personality_adaptations clock_ex tok_ex (assistant_world NoClient)))
    = db (assistant_world NoClient).
Proof.
  edestruct (analysis_uses_recent_user_messages clock_ex tok_ex
               (assistant_world NoClient)) as (Hnone & _).
  - vm_compute. reflexivity.
  - vm_compute. lia.
  - destruct Hnone as (Hr & Hdb & _); [vm_compute; reflexivity|].
    rewrite Hr. split; [reflexivity|]. exact Hdb.
Defined.

(** * Further properties of the service *)

Section ServiceProperties.
Variable utc : nat -> Z.
Variable uuid4 : nat -> string.

Ltac run :=
  unfold get_session, db_query, _get_cached_session, when_client,
         _cache_session, _add_message_to_cache, db_commit,
         utcnow, func_now, redis_client,
         bind, gets, modify, ret, set_redis, set_db, set_ticks, set_issued in *;
  simpl in *.
Ltac cases := repeat (case_match; simpl in *; simplify_eq).

Lemma cache_key_inj tok tok' : cache_key tok = cache_key tok' -> tok = tok'.
Proof. unfold cache_key. simpl. intros H. injection H. auto. Qed.

(** ** The operations as changes of the world *)

Lemma cache_eq tok s w :
  when_client (_cache_session tok s) w = (tt, cached tok s w).
Proof.
  destruct w as [d rd t i aw dn]. unfold cached. run.
  destruct rd; try reflexivity. destruct (last_activity s); reflexivity.
Qed.

Lemma add_to_cache_eq tok m w :
  when_client (_add_message_to_cache tok m) w = (tt, cache_appended tok m w).
Proof.
  destruct w as [d rd t i aw dn]. unfold cache_appended. run.
  destruct rd; reflexivity.
Qed.

Lemma db_commit_eq cols s w : db_commit cols s w = committed cols s w.
Proof.
  unfold committed, flushed, tick, db_commit, bind, gets, modify, ret, func_now.
  destruct (tracked s); [|reflexivity]. cbn [fst snd].
  destruct (db w !! session_token s); [|reflexivity].
  destruct cols as [|c cols]; [reflexivity|].
  destruct (has LastActivity (c :: cols)); reflexivity.
Qed.

Lemma commit_and_cache_eq tok cols s w :
  (let* s' := db_commit cols s in when_client (_cache_session tok s')) w
  = (tt, written_back tok cols s w).
Proof.
  unfold bind. rewrite db_commit_eq. unfold written_back.
  destruct (committed cols s w) as [s' w']. apply cache_eq.
Qed.

Lemma mutate_world f cols tok w :
  mutate utc f cols tok w =
  (tt, match get_session utc tok w with
       | (Some s, w0) =>
           written_back tok (cols s ++ [LastActivity])
             (set_last_activity (Some (utc (ticks w0))) (f s)) (tick w0)
       | (None, w0) => w0
       end).
Proof.
  unfold mutate. unfold bind at 1.
  destruct (get_session utc tok w) as [[s|] w0]; [|reflexivity].
  unfold bind at 1. unfold utcnow at 1. fold (tick w0).
  apply commit_and_cache_eq.
Qed.

Lemma add_world tok rl ct md w :
  add_conversation_message utc tok rl ct md w =
  (tt, let message := {| role := rl; content := ct; timestamp := utc (ticks w);
                         metadata := default ∅ md |} in
       match get_session utc tok (tick w) with
       | (Some s, w0) =>
           cache_appended tok message
             (written_back tok
                ((if list_truthy (conversation_history s) &&
                     negb (max_conversation_length
                             <? length (conversation_history s ++ [message]))%nat
                  then [] else [ConversationHistory]) ++ [LastActivity])
                (set_last_activity (Some (utc (ticks w0)))
                   (set_conversation_history
                      (append_trim (conversation_history s) message) s))
                (tick w0))
       | (None, w0) => cache_appended tok message w0
       end).
Proof.
  unfold add_conversation_message. unfold bind at 1. unfold utcnow at 1.
  fold (tick w). unfold bind at 1.
  destruct (get_session utc tok (tick w)) as [[s|] w0].
  - unfold bind at 1. unfold bind at 1. unfold utcnow at 1. fold (tick w0).
    cbv zeta. rewrite commit_and_cache_eq. apply add_to_cache_eq.
  - unfold bind at 1, ret at 1. apply add_to_cache_eq.
Qed.

Lemma get_session_aware tok w r w' :
  get_session utc tok w = (r, w') -> db_aware w' = db_aware w /\ db_now w' = db_now w.
Proof.
  destruct w as [d rd t i aw dn]. run. intros H. cases; split; reflexivity.
Qed.

Lemma get_session_issued tok w r w' :
  get_session utc tok w = (r, w') -> issued w' = issued w.
Proof.
  destruct w as [d rd t i aw dn]. run. intros H. cases; reflexivity.
Qed.

Lemma get_session_some_ticks tok w s w' :
  get_session utc tok w = (Some s, w') -> (ticks w < ticks w')%nat.
Proof.
  destruct w as [d rd t i aw dn]. run. intros H. cases; simpl; lia.
Qed.

(** Where a session that was found comes from. *)
Lemma get_session_result tok w s w' :
  get_session utc tok w = (Some s, w') ->
  session_token s = tok /\
  ((tracked s = true /\ exists r, db w !! tok = Some r /\ s = of_row tok r /\
                                  exists k, (ticks w <= k < ticks w')%nat /\
                                            (utc k < r_expires_at r)%Z) \/
   (tracked s = false /\ created_at s = None /\ db_aware w = false /\
    redis w' = redis w /\
    exists h uid e, cache_at tok w = Some h /\ h_user_id h = Some uid /\
                    h_expires_at h = Some e /\ s = session_of_hash tok uid e h /\
                    (utc (ticks w) < e)%Z)).
Proof.
  destruct w as [d rd t i aw dn]. unfold cache_at. run. intros H.
  cases; (split; [reflexivity|]).
  all: try (left; split; [reflexivity|]; eexists; split; [eassumption|];
            split; [reflexivity|]; eexists; split; [|apply Z.ltb_lt; eassumption];
            simpl; lia).
  all: right; split; [reflexivity|]; split; [reflexivity|];
       split; [reflexivity|]; split; [reflexivity|];
       eexists _, _, _; repeat split; try eassumption; try reflexivity.
  all: apply Z.leb_gt; assumption.
Qed.

(** *** Isolation *)

Lemma same_elsewhere_refl tok w : same_elsewhere tok w w.
Proof. intros tok' _. auto. Qed.

Lemma same_elsewhere_trans tok w1 w2 w3 :
  same_elsewhere tok w1 w2 -> same_elsewhere tok w2 w3 -> same_elsewhere tok w1 w3.
Proof.
  intros H1 H2 tok' Hne. destruct (H1 tok' Hne) as [E1 E1'].
  destruct (H2 tok' Hne) as [E2 E2']. split; congruence.
Qed.

(** *** Rows are kept *)

Lemma rows_kept_refl w : rows_kept w w.
Proof. intros tok r H. eauto. Qed.

Lemma rows_kept_trans w1 w2 w3 :
  rows_kept w1 w2 -> rows_kept w2 w3 -> rows_kept w1 w3.
Proof.
  intros H1 H2 tok r Hr.
  destruct (H1 tok r Hr) as (r' & Hr' & Hu & Hc & He).
  destruct (H2 tok r' Hr') as (r'' & Hr'' & Hu' & Hc' & He').
  exists r''. repeat split; congruence.
Qed.

Lemma rows_kept_same_db w w' : db w' = db w -> rows_kept w w'.
Proof. intros E tok r H. rewrite E. eauto. Qed.

(** *** The analyzer as a function of the clock reading *)

Lemma analyze_patterns_eq msgs w :
  msgs <> [] ->
  _analyze_interaction_patterns utc msgs w =
  match pacing_preference msgs with
  | Raise e => (Raise e, w)
  | Ok pacing => (Ok (adaptation_record msgs pacing (utc (ticks w))), tick w)
  end.
Proof.
  intros Hne. destruct msgs as [|m ms]; [congruence|].
  unfold _analyze_interaction_patterns.
  destruct (pacing_preference (m :: ms)); reflexivity.
Qed.

Lemma adaptation_record_truthy msgs pacing now :
  dict_truthy (adaptation_record msgs pacing now) = true.
Proof.
  unfold dict_truthy, adaptation_record.
  destruct (map_to_list _) eqn:E; [|reflexivity].
  apply map_to_list_empty_iff in E. apply insert_non_empty in E. contradiction.
Qed.

(** The session object [analyze_personality_adaptations] writes back. *)
Lemma analyze_world tok w :
  analyze_personality_adaptations utc tok w =
  match get_session utc tok w with
  | (None, w0) => (Ok ∅, w0)
  | (Some s, w1) =>
      if (length (conversation_history s) <? personality_analysis_threshold)%nat
      then (Ok (personality_adaptations s), w1)
      else
        match recent_user_messages (conversation_history s) with
        | [] => (Ok (personality_adaptations s), w1)
        | msgs =>
            match pacing_preference msgs with
            | Raise e => (Raise e, w1)
            | Ok pacing =>
                let a := adaptation_record msgs pacing (utc (ticks w1)) in
                (Ok a,
                 written_back tok
                   (if dict_truthy (personality_adaptations s) then []
                    else [PersonalityAdaptations])
                   (set_personality_adaptations
                      (a ∪ personality_adaptations s) s)
                   (tick w1))
            end
        end
  end.
Proof.
  unfold analyze_personality_adaptations. unfold bind at 1.
  destruct (get_session utc tok w) as [[s|] w1]; [|reflexivity].
  destruct (length (conversation_history s) <? personality_analysis_threshold)%nat;
    [reflexivity|].
  destruct (recent_user_messages (conversation_history s)) as [|m ms] eqn:Em;
    [reflexivity|].
  unfold bind at 1. rewrite analyze_patterns_eq by discriminate.
  destruct (pacing_preference (m :: ms)) as [pacing|e]; [|reflexivity].
  unfold bind at 1. rewrite adaptation_record_truthy.
  cbv zeta. rewrite commit_and_cache_eq. reflexivity.
Qed.

(** *** The worlds the other operations leave *)

Lemma create_world uid w :
  create_session utc uuid4 uid w =
  let tok := uuid4 (issued w) in
  let w1 := set_issued (S (issued w)) (set_ticks (S (ticks w)) w) in
  match db w !! tok with
  | Some _ => (Raise IntegrityError, w1)
  | None =>
      (Ok tok,
       set_db (<[tok := new_row uid (utc (ticks w) + session_lifetime)
                          (db_now w (S (ticks w)))]> (db w))
         (set_issued (S (issued w)) (set_ticks (S (S (ticks w))) w)))
  end.
Proof.
  destruct w as [d rd t i aw dn]. unfold create_session, _generate_session_token,
    new_row. run.
  destruct (d !! uuid4 i); [reflexivity|]. destruct rd; reflexivity.
Qed.

Lemma history_world tok limit w :
  snd (get_conversation_history utc tok limit w) = snd (get_session utc tok w).
Proof.
  unfold get_conversation_history, bind.
  destruct (get_session utc tok w) as [[s|] w1]; [|reflexivity].
  destruct limit as [k|]; [|reflexivity]. destruct (k =? 0)%Z; reflexivity.
Qed.

Lemma recommend_world tok w :
  snd (get_personalized_recommendations utc tok w) = snd (get_session utc tok w).
Proof.
  unfold get_personalized_recommendations, bind.
  destruct (get_session utc tok w) as [[s|] w1]; reflexivity.
Qed.

(** *** Every call is a sequence of elementary changes *)

Lemma world_eta w :
  w = {| db := db w; redis := redis w; ticks := ticks w; issued := issued w;
         db_aware := db_aware w; db_now := db_now w |}.
Proof. destruct w; reflexivity. Qed.

Lemma step_tick tok w : step utc tok w (tick w).
Proof.
  replace (tick w) with (set_issued (issued w) (set_ticks (S (ticks w)) w))
    by (destruct w; reflexivity).
  apply step_count.
Qed.

Lemma get_session_steps tok w r w' :
  get_session utc tok w = (r, w') -> rtc (step utc tok) w w'.
Proof.
  intros Hg.
  pose proof (get_session_db _ _ _ _ _ Hg) as Hdb.
  pose proof (get_session_issued _ _ _ _ Hg) as Hi.
  destruct (get_session_aware _ _ _ _ Hg) as [Haw Hdn].
  assert (Hw : forall rd, redis w' = rd ->
            w' = set_issued (issued w) (set_ticks (ticks w') (set_redis rd w))).
  { intros rd <-. rewrite (world_eta w') at 1.
    unfold set_issued, set_ticks, set_redis. simpl.
    rewrite Hdb, Haw, Hdn, Hi. reflexivity. }
  destruct (get_session_cache _ _ _ _ _ Hg)
    as [Hr|(st & Hst & [[_ Hr]|[(row & Hrow & _ & Hr)|(row & _ & _ & _ & Hr)]])];
    rewrite (Hw _ Hr).
  - replace (set_redis (redis w) w) with w by (destruct w; reflexivity).
    apply rtc_once. apply step_count.
  - eapply rtc_l; [apply (step_purge utc tok w st Hst)|].
    apply rtc_once. apply (step_count utc tok (set_redis _ w)).
  - eapply rtc_l; [apply (step_fill utc tok w st row Hst Hrow)|].
    apply rtc_once. apply (step_count utc tok (set_redis _ w)).
  - eapply rtc_l; [apply (step_purge utc tok w st Hst)|].
    apply rtc_once. apply (step_count utc tok (set_redis _ w)).
Qed.

Lemma get_session_served tok w s w' :
  get_session utc tok w = (Some s, w') -> served tok w' s.
Proof.
  intros Hg. destruct (get_session_result _ _ _ _ Hg) as [Htok Hs].
  split; [exact Htok|].
  destruct Hs as [(Ht & r & Hr & Hs & _)|(Ht & _ & _ & Hrd & Hc)].
  - left. split; [exact Ht|]. exists r.
    rewrite (get_session_db _ _ _ _ _ Hg). auto.
  - right. split; [exact Ht|]. destruct Hc as (h & uid & e & Hc & Hu & He & Hs & _).
    exists h, uid, e. repeat split; try assumption.
    unfold cache_at in *. rewrite Hrd. exact Hc.
Qed.

Lemma served_tick tok w s : served tok w s -> served tok (tick w) s.
Proof. intros H. exact H. Qed.

Lemma updated_write_columns cols s s' r :
  conversation_history s = r_conversation_history r ->
  assigned s s' -> updated r (write_columns cols s' r).
Proof.
  intros Hh (_ & _ & _ & _ & _ & Hc). unfold updated. simpl.
  repeat split.
  destruct (has ConversationHistory cols); [|left; reflexivity].
  rewrite <- Hh. exact Hc.
Qed.

Lemma updated_set_r_last_activity r r' t :
  updated r r' -> updated r (set_r_last_activity t r').
Proof. intros H. exact H. Qed.

(** The commit and the re-caching that end an operation on a served
    session. *)
Lemma written_back_steps tok cols s s' w :
  served tok w s -> assigned s s' ->
  rtc (step utc tok) w (written_back tok cols s' w).
Proof.
  intros [Htok Hs] Ha.
  pose proof Ha as (Htr & Htok' & _).
  unfold written_back, committed. rewrite Htr, Htok', Htok.
  destruct Hs as [(Ht & r & Hr & Hsr)|(Ht & h & uid & e & Hh & Hu & He & Hsh)].
  - rewrite Ht, Hr.
    assert (Hfill : forall r1 w1, db w1 !! tok = Some r1 ->
              rtc (step utc tok) w1 (cached tok (of_row tok r1) w1)).
    { intros r1 w1 Hr1. unfold cached.
      destruct (redis w1) as [| |st] eqn:Er; try apply rtc_refl.
      destruct (last_activity (of_row tok r1)); [|apply rtc_refl].
      apply rtc_once. apply (step_fill utc tok w1 st r1 Er Hr1). }
    assert (Hup : updated r (write_columns cols s' r)).
    { apply (updated_write_columns cols s s' r); [subst s; reflexivity|exact Ha]. }
    unfold flushed. rewrite Htok', Htok.
    destruct cols as [|c cols]; [apply Hfill; exact Hr|].
    destruct (has LastActivity (c :: cols)); cbn [fst snd].
    + eapply rtc_l; [apply (step_update utc tok w r _ Hr Hup)|].
      apply Hfill. simpl. apply lookup_insert_eq.
    + eapply rtc_l; [apply step_tick|].
      eapply rtc_l.
      { apply (step_update utc tok (tick w) r
                 (set_r_last_activity (Some (db_now w (ticks w)))
                    (write_columns (c :: cols) s' r)) Hr).
        apply updated_set_r_last_activity. exact Hup. }
      apply Hfill. simpl. apply lookup_insert_eq.
  - rewrite Ht. cbn [fst snd]. unfold cached.
    destruct (redis w) as [| |st] eqn:Er; try apply rtc_refl.
    destruct (last_activity s'); [|apply rtc_refl].
    apply rtc_once. apply (step_cache_write utc tok w st s s' Er); [|exact Ht|exact Ha].
    split; [exact Htok|]. right. split; [exact Ht|]. eauto 10.
Qed.

Lemma assigned_stamp s s' t :
  assigned s s' -> assigned s (set_last_activity t s').
Proof. intros H. exact H. Qed.

Lemma mutate_steps f cols tok w :
  (forall s, assigned s (f s)) ->
  rtc (step utc tok) w (snd (mutate utc f cols tok w)).
Proof.
  intros Hf. rewrite mutate_world. simpl.
  destruct (get_session utc tok w) as [[s|] w0] eqn:E;
    [|eapply get_session_steps; exact E].
  etransitivity; [eapply get_session_steps; exact E|].
  eapply rtc_l; [apply step_tick|].
  eapply written_back_steps.
  - apply served_tick. eapply get_session_served; exact E.
  - apply assigned_stamp. apply Hf.
Qed.

Lemma exec_steps c w :
  rtc (step utc (target uuid4 c w)) w (exec utc uuid4 c w).
Proof.
  destruct c as [uid|tok|tok rl ct md|tok limit|tok p|tok sc|tok|tok]; simpl.
  - rewrite create_world. simpl.
    destruct (db w !! uuid4 (issued w)) eqn:Ed; simpl.
    + apply rtc_once. apply step_count.
    + eapply rtc_l; [apply (step_count utc _ w (S (S (ticks w))) (S (issued w)))|].
      apply rtc_once.
      apply (step_create utc _ (set_issued _ (set_ticks _ w)) uid (ticks w)).
      exact Ed.
  - destruct (get_session utc tok w) as [r w'] eqn:E. simpl.
    eapply get_session_steps; exact E.
  - rewrite add_world. simpl.
    eapply rtc_l; [apply step_tick|].
    destruct (get_session utc tok (tick w)) as [[s|] w0] eqn:E.
    + etransitivity; [eapply get_session_steps; exact E|].
      eapply rtc_l; [apply step_tick|].
      etransitivity; [|apply rtc_once; apply step_cache_append].
      eapply written_back_steps.
      * apply served_tick. eapply get_session_served; exact E.
      * unfold assigned. simpl. repeat split; try reflexivity. right. eauto.
    + etransitivity; [eapply get_session_steps; exact E|].
      apply rtc_once. apply step_cache_append.
  - rewrite history_world.
    destruct (get_session utc tok w) as [r w'] eqn:E. simpl.
    eapply get_session_steps; exact E.
  - rewrite update_learning_progress_mutate. apply mutate_steps.
    intros s. unfold assigned. simpl. auto 10.
  - rewrite update_story_context_mutate. apply mutate_steps.
    intros s. unfold assigned. simpl. auto 10.
  - rewrite analyze_world.
    destruct (get_session utc tok w) as [[s|] w1] eqn:E; simpl;
      [|eapply get_session_steps; exact E].
    pose proof (get_session_steps _ _ _ _ E) as Hg.
    pose proof (get_session_served _ _ _ _ E) as Hs.
    destruct (length (conversation_history s) <? personality_analysis_threshold)%nat;
      [exact Hg|].
    destruct (recent_user_messages (conversation_history s)); [exact Hg|].
    destruct (pacing_preference (m :: l)); [|exact Hg]. simpl.
    etransitivity; [exact Hg|].
    eapply rtc_l; [apply step_tick|].
    eapply written_back_steps; [apply served_tick; exact Hs|].
    unfold assigned. simpl. auto 10.
  - rewrite recommend_world.
    destruct (get_session utc tok w) as [r w'] eqn:E. simpl.
    eapply get_session_steps; exact E.
Qed.
(** *** What the elementary changes keep *)

Lemma step_same_elsewhere tok w w' :
  step utc tok w w' -> same_elsewhere tok w w'.
Proof.
  intros [t i|st Hst|st row Hst Hrow|uid t Hn|row row' Hrow Hup|st s s' Hst Hs Ht Ha|m]
    tok' Hne; unfold cache_at; simpl; rewrite ?Hst.
  - auto.
  - split; [reflexivity|].
    apply lookup_delete_ne. intros E. apply cache_key_inj in E. congruence.
  - split; [reflexivity|].
    apply lookup_insert_ne. intros E. apply cache_key_inj in E. congruence.
  - split; [|reflexivity]. apply lookup_insert_ne. congruence.
  - split; [|reflexivity]. apply lookup_insert_ne. congruence.
  - split; [reflexivity|].
    apply lookup_insert_ne. intros E. apply cache_key_inj in E. congruence.
  - unfold cache_appended.
    destruct (redis w) eqn:E; simpl; rewrite ?E; auto.
    split; [reflexivity|].
    apply lookup_insert_ne. intros E'. apply cache_key_inj in E'. congruence.
Qed.

Lemma step_rows_kept tok w w' : step utc tok w w' -> rows_kept w w'.
Proof.
  intros [t i|st Hst|st row Hst Hrow|uid t Hn|row row' Hrow Hup|st s s' Hst Hs Ht Ha|m].
  - apply rows_kept_same_db. reflexivity.
  - apply rows_kept_same_db. reflexivity.
  - apply rows_kept_same_db. reflexivity.
  - intros tok' r Hr. simpl.
    rewrite lookup_insert_ne by congruence. eauto.
  - intros tok' r Hr. simpl. destruct Hup as (Hu & Hc & He & _).
    destruct (decide (tok = tok')) as [<-|Hne].
    + rewrite lookup_insert_eq. exists row'. split; [reflexivity|].
      assert (r = row) by congruence. subst r. auto.
    + rewrite lookup_insert_ne by exact Hne. eauto.
  - apply rows_kept_same_db. reflexivity.
  - apply rows_kept_same_db. unfold cache_appended.
    destruct (redis w); reflexivity.
Qed.

Lemma served_bounded tok w s :
  bounded w -> served tok w s ->
  (length (conversation_history s) <= max_conversation_length)%nat.
Proof.
  intros [Hrows Hhashes] [Htok [(_ & r & Hr & ->)|(_ & h & uid & e & Hc & _ & _ & ->)]].
  - simpl. eapply Hrows; exact Hr.
  - simpl. unfold cache_at in Hc. destruct (redis w) as [| |st] eqn:Er; try discriminate.
    destruct (h_conversation_history h) as [l|] eqn:El; simpl.
    + eapply Hhashes; eauto.
    + unfold max_conversation_length. lia.
Qed.

Lemma bounded_set_db tok r w :
  bounded w -> (length (r_conversation_history r) <= max_conversation_length)%nat ->
  bounded (set_db (<[tok := r]> (db w)) w).
Proof.
  intros [Hrows Hhashes] Hr. split; [|exact Hhashes].
  intros tok' r'. simpl. destruct (decide (tok = tok')) as [<-|Hne].
  - rewrite lookup_insert_eq. intros [= <-]. exact Hr.
  - rewrite lookup_insert_ne by exact Hne. apply Hrows.
Qed.

Lemma bounded_set_hash tok h st w :
  bounded w -> redis w = Connected st ->
  (forall l, h_conversation_history h = Some l ->
             (length l <= max_conversation_length)%nat) ->
  bounded (set_redis (Connected (<[cache_key tok := h]> st)) w).
Proof.
  intros [Hrows Hhashes] Hst Hh. split; [exact Hrows|].
  intros st' k h' l. simpl. intros [= <-].
  destruct (decide (cache_key tok = k)) as [<-|Hne].
  - rewrite lookup_insert_eq. intros [= <-]. apply Hh.
  - rewrite lookup_insert_ne by exact Hne. intros. eapply Hhashes; eauto.
Qed.

Lemma step_bounded tok w w' : step utc tok w w' -> bounded w -> bounded w'.
Proof.
  intros [t i|st Hst|st row Hst Hrow|uid t Hn|row row' Hrow Hup|st s s' Hst Hs Ht Ha|m] Hb.
  - exact Hb.
  - destruct Hb as [Hrows Hhashes]. split; [exact Hrows|].
    intros st' k h l. simpl. intros [= <-] Hk.
    apply lookup_delete_Some in Hk as [_ Hk]. eapply Hhashes; eauto.
  - apply bounded_set_hash; [exact Hb|exact Hst|].
    simpl. intros l [= <-]. destruct Hb as [Hrows _]. eapply Hrows; exact Hrow.
  - apply bounded_set_db; [exact Hb|]. simpl. lia.
  - apply bounded_set_db; [exact Hb|].
    destruct Hb as [Hrows _]. pose proof (Hrows _ _ Hrow) as Hlen.
    destruct Hup as (_ & _ & _ & [->|[m ->]]); [exact Hlen|].
    apply append_trim_length.
  - apply bounded_set_hash; [exact Hb|exact Hst|].
    simpl. intros l [= <-].
    pose proof (served_bounded _ _ _ Hb Hs) as Hlen.
    destruct Ha as (_ & _ & _ & _ & _ & [->|[m ->]]); [exact Hlen|].
    apply append_trim_length.
  - unfold cache_appended.
    destruct (redis w) as [| |st] eqn:Er; [exact Hb..|].
    apply bounded_set_hash; [exact Hb|exact Er|].
    simpl. intros l [= <-]. apply append_trim_length.
Qed.

Lemma step_coherent tok w w' : step utc tok w w' -> coherent w -> coherent w'.
Proof.
  intros [t i|st Hst|st row Hst Hrow|uid t Hn|row row' Hrow Hup|st s s' Hst Hs Ht Ha|m] Hc.
  - exact Hc.
  - intros tok' h e. unfold cache_at, set_redis. simpl. intros Hh He.
    apply lookup_delete_Some in Hh as [_ Hh].
    apply (Hc tok' h e); [|exact He]. unfold cache_at. rewrite Hst. exact Hh.
  - intros tok' h e. unfold cache_at, set_redis. simpl. intros Hh He.
    destruct (decide (cache_key tok = cache_key tok')) as [E|Hne].
    + rewrite E, lookup_insert_eq in Hh. apply cache_key_inj in E. subst tok'.
      injection Hh as <-. simpl in He. injection He as <-.
      exists row. split; [exact Hrow|]. split; [reflexivity|].
      simpl. intros uid [= <-]. reflexivity.
    + rewrite lookup_insert_ne in Hh by exact Hne.
      apply (Hc tok' h e); [|exact He]. unfold cache_at. rewrite Hst. exact Hh.
  - intros tok' h e Hh He. change (cache_at tok' w = Some h) in Hh.
    destruct (Hc tok' h e Hh He) as (r & Hr & Hre & Hru).
    exists r. simpl. rewrite lookup_insert_ne by congruence. auto.
  - intros tok' h e Hh He. change (cache_at tok' w = Some h) in Hh.
    destruct (Hc tok' h e Hh He) as (r & Hr & Hre & Hru).
    destruct Hup as (Hu & _ & Hx & _). simpl.
    destruct (decide (tok = tok')) as [<-|Hne].
    + rewrite lookup_insert_eq. exists row'. split; [reflexivity|].
      assert (r = row) by congruence. subst r.
      split; [congruence|]. intros uid Huid. rewrite Hu. apply Hru, Huid.
    + rewrite lookup_insert_ne by exact Hne. eauto.
  - intros tok' h e. unfold cache_at, set_redis. simpl. intros Hh He.
    destruct (decide (cache_key tok = cache_key tok')) as [E|Hne].
    + rewrite E, lookup_insert_eq in Hh. apply cache_key_inj in E. subst tok'.
      injection Hh as <-. simpl in He. injection He as <-.
      destruct Ha as (_ & _ & Hu & _ & Hx & _).
      destruct Hs as [_ [(Htr & _)|(_ & h & uid & e & Hh & Hhu & Hhe & ->)]];
        [congruence|].
      destruct (Hc tok h e Hh Hhe) as (r & Hr & Hre & Hru).
      exists r. split; [exact Hr|]. rewrite Hx. simpl. split; [exact Hre|].
      intros uid' [= <-]. rewrite Hu. simpl. apply Hru, Hhu.
    + rewrite lookup_insert_ne in Hh by exact Hne.
      apply (Hc tok' h e); [|exact He]. unfold cache_at. rewrite Hst. exact Hh.
  - intros tok' h e. unfold cache_appended, cache_at.
    destruct (redis w) as [| |st] eqn:Er; simpl; rewrite ?Er; try discriminate.
    intros Hh He.
    destruct (decide (cache_key tok = cache_key tok')) as [E|Hne].
    + rewrite E, lookup_insert_eq in Hh. injection Hh as <-. simpl in He.
      destruct (st !! cache_key tok') as [h0|] eqn:Eh; [|discriminate He].
      simpl in He. destruct (Hc tok' h0 e) as (r & Hr & Hre & Hru); [|exact He|].
      { unfold cache_at. rewrite Er. exact Eh. }
      exists r. split; [exact Hr|]. split; [exact Hre|exact Hru].
    + rewrite lookup_insert_ne in Hh by exact Hne.
      apply (Hc tok' h e); [|exact He]. unfold cache_at. rewrite Er. exact Hh.
Qed.



(** *** From elementary changes to runs of calls *)

Lemma steps_preserve (P : World -> Prop) tok w w' :
  (forall w w', step utc tok w w' -> P w -> P w') ->
  rtc (step utc tok) w w' -> P w -> P w'.
Proof. intros Hstep Hrtc. induction Hrtc; eauto. Qed.

Lemma run_preserves (P : World -> Prop) :
  (forall tok w w', step utc tok w w' -> P w -> P w') ->
  forall cs w, P w -> P (run_calls utc uuid4 cs w).
Proof.
  intros Hstep cs. induction cs as [|c cs IH]; intros w Hw; [exact Hw|].
  simpl. apply IH.
  eapply steps_preserve; [apply Hstep|apply exec_steps|exact Hw].
Qed.

Lemma slice_from_neg_length {A} k (l : list A) :
  (length (slice_from_neg k l) <= length l)%nat.
Proof.
  unfold slice_from_neg. destruct (0 <? k)%Z; rewrite length_drop; lia.
Qed.

(** X2. Whatever calls are made, no stored history grows beyond 100
    entries, and [get_conversation_history] never returns more than
    100 messages. *)
Theorem histories_stay_bounded cs w tok limit :
  bounded w ->
  bounded (run_calls utc uuid4 cs w) /\
  (length (fst (get_conversation_history utc tok limit (run_calls utc uuid4 cs w)))
     <= max_conversation_length)%nat.
Proof.
  intros Hb.
  assert (Hb' : bounded (run_calls utc uuid4 cs w))
    by (apply run_preserves; [apply step_bounded|exact Hb]).
  split; [exact Hb'|].
  set (w1 := run_calls utc uuid4 cs w) in *.
  unfold get_conversation_history, bind.
  destruct (get_session utc tok w1) as [[s|] w2] eqn:E;
    [|simpl; unfold max_conversation_length; lia].
  assert (Hs : (length (conversation_history s) <= max_conversation_length)%nat).
  { eapply served_bounded; [|eapply get_session_served; exact E].
    eapply steps_preserve; [apply step_bounded|eapply get_session_steps; exact E|].
    exact Hb'. }
  destruct limit as [k|]; [|exact Hs].
  destruct (k =? 0)%Z; [exact Hs|]. simpl.
  etransitivity; [apply slice_from_neg_length|exact Hs].
Qed.

Lemma run_rows_kept cs w : rows_kept w (run_calls utc uuid4 cs w).
Proof.
  apply (run_preserves (fun w' => rows_kept w w')); [|apply rows_kept_refl].
  intros tok w1 w2 Hstep Hk. eapply rows_kept_trans; [exact Hk|].
  eapply step_rows_kept; exact Hstep.
Qed.

(** X3. No run of calls deletes a row or changes its owner, its creation
    time or its expiry: activity never extends a session. *)
Theorem rows_are_kept cs w tok r :
  db w !! tok = Some r ->
  exists r', db (run_calls utc uuid4 cs w) !! tok = Some r' /\
    r_user_id r' = r_user_id r /\
    r_created_at r' = r_created_at r /\
    r_expires_at r' = r_expires_at r.
Proof. apply run_rows_kept. Qed.

(** X1. A call changes neither the row nor the hash of any token other
    than the one it works on. *)
Theorem calls_leave_other_sessions_alone c w tok' :
  tok' <> target uuid4 c w ->
  db (exec utc uuid4 c w) !! tok' = db w !! tok' /\
  cache_at tok' (exec utc uuid4 c w) = cache_at tok' w.
Proof.
  intros Hne.
  assert (H : same_elsewhere (target uuid4 c w) w (exec utc uuid4 c w)).
  { apply (steps_preserve (fun w' => same_elsewhere (target uuid4 c w) w w')
             (target uuid4 c w) w); [|apply exec_steps|apply same_elsewhere_refl].
    intros w1 w2 Hstep Hk. eapply same_elsewhere_trans; [exact Hk|].
    eapply step_same_elsewhere; exact Hstep. }
  apply H. exact Hne.
Qed.

(** X4. In a world where every hash with an expiry belongs to a row with
    that expiry and owner, this stays so through any run of calls, and
    a session served afterwards, from the cache or from the table, has
    the owner and the expiry of its row. *)
Theorem served_session_matches_its_row cs w tok s w' :
  coherent w ->
  get_session utc tok (run_calls utc uuid4 cs w) = (Some s, w') ->
  coherent (run_calls utc uuid4 cs w) /\
  exists r, db (run_calls utc uuid4 cs w) !! tok = Some r /\
            expires_at s = r_expires_at r /\ user_id s = r_user_id r.
Proof.
  intros Hc Hg.
  assert (Hc' : coherent (run_calls utc uuid4 cs w))
    by (apply run_preserves; [apply step_coherent|exact Hc]).
  split; [exact Hc'|].
  destruct (get_session_result _ _ _ _ Hg)
    as [_ [(_ & r & Hr & -> & _)
          |(_ & _ & _ & _ & h & uid & e & Hh & Hu & He & -> & _)]].
  - exists r. auto.
  - destruct (Hc' tok h e Hh He) as (r & Hr & Hre & Hru).
    exists r. simpl. split; [exact Hr|]. split; [congruence|]. apply Hru, Hu.
Qed.


(** X6. A session that [get_session] returns was unexpired at a clock
    reading taken during the call; a copy served from the cache is not
    tracked by the db session and has no creation time, a session
    loaded from the table is the row. *)
Theorem served_session_is_unexpired tok w s w' :
  get_session utc tok w = (Some s, w') ->
  (exists k, (ticks w <= k < ticks w')%nat /\ (utc k < expires_at s)%Z) /\
  (tracked s = false -> created_at s = None) /\
  (tracked s = true -> exists r, db w !! tok = Some r /\ s = of_row tok r).
Proof.
  intros Hg. pose proof (get_session_ticks _ _ _ _ _ Hg) as Ht.
  destruct (get_session_result _ _ _ _ Hg)
    as [_ [(Htr & r & Hr & -> & k & Hk & Hlt)
          |(Htr & Hc & _ & _ & h & uid & e & Hh & Hu & He & -> & Hlt)]].
  - split; [exists k; auto|]. split; [simpl; discriminate|]. eauto.
  - split.
    + exists (ticks w). split; [|exact Hlt].
      pose proof (get_session_some_ticks _ _ _ _ Hg). lia.
    + split; [reflexivity|]. simpl. discriminate.
Qed.

(** *** Expired sessions *)

Lemma ticks_cached tok s w : ticks (cached tok s w) = ticks w.
Proof. unfold cached. destruct (redis w), (last_activity s); reflexivity. Qed.

Lemma ticks_written_back tok cols s w :
  (ticks w <= ticks (written_back tok cols s w) <= S (ticks w))%nat.
Proof.
  unfold written_back. rewrite ticks_cached. unfold committed.
  destruct (tracked s); [|simpl; lia].
  destruct (db w !! session_token s) as [r|]; [|simpl; lia].
  unfold flushed. destruct cols as [|c cols]; [simpl; lia|].
  destruct (has LastActivity (c :: cols)); simpl; lia.
Qed.

Lemma ticks_cache_appended tok m w : ticks (cache_appended tok m w) = ticks w.
Proof. unfold cache_appended. destruct (redis w); reflexivity. Qed.

Lemma exec_ticks c w : (ticks w <= ticks (exec utc uuid4 c w))%nat.
Proof.
  destruct c as [uid|tok|tok rl ct md|tok limit|tok p|tok sc|tok|tok]; simpl.
  - rewrite create_world. cbv zeta. destruct (db w !! uuid4 (issued w)); simpl; lia.
  - destruct (get_session utc tok w) as [r w'] eqn:E.
    pose proof (get_session_ticks utc tok w r w' E). simpl. lia.
  - rewrite add_world. cbv zeta. simpl.
    destruct (get_session utc tok (tick w)) as [[s|] w'] eqn:E;
      pose proof (get_session_ticks utc tok _ _ _ E) as Ht; simpl in Ht;
      rewrite ticks_cache_appended.
    + match goal with |- context [written_back ?a ?b ?c ?d] =>
        pose proof (ticks_written_back a b c d) as Hw end.
      simpl in Hw. lia.
    + lia.
  - rewrite history_world.
    destruct (get_session utc tok w) as [r w'] eqn:E.
    pose proof (get_session_ticks utc tok w r w' E). simpl. lia.
  - rewrite update_learning_progress_mutate, mutate_world. simpl.
    destruct (get_session utc tok w) as [[s|] w'] eqn:E;
      pose proof (get_session_ticks utc tok _ _ _ E) as Ht; [|lia].
    match goal with |- context [written_back ?a ?b ?c ?d] =>
      pose proof (ticks_written_back a b c d) as Hw end.
    simpl in Hw. lia.
  - rewrite update_story_context_mutate, mutate_world. simpl.
    destruct (get_session utc tok w) as [[s|] w'] eqn:E;
      pose proof (get_session_ticks utc tok _ _ _ E) as Ht; [|lia].
    match goal with |- context [written_back ?a ?b ?c ?d] =>
      pose proof (ticks_written_back a b c d) as Hw end.
    simpl in Hw. lia.
  - rewrite analyze_world.
    destruct (get_session utc tok w) as [[s|] w'] eqn:E;
      pose proof (get_session_ticks utc tok _ _ _ E) as Ht; [|simpl; lia].
    destruct (length (conversation_history s) <? personality_analysis_threshold)%nat;
      [simpl; lia|].
    destruct (recent_user_messages (conversation_history s)); [simpl; lia|].
    cbv zeta. destruct (pacing_preference (m :: l)); [|simpl; lia].
    cbn [snd].
    match goal with |- context [written_back ?a ?b ?c ?d] =>
      pose proof (ticks_written_back a b c d) as Hw end.
    simpl in Hw. lia.
  - rewrite recommend_world.
    destruct (get_session utc tok w) as [r w'] eqn:E.
    pose proof (get_session_ticks utc tok w r w' E). simpl. lia.
Qed.

Lemma run_ticks cs : forall w, (ticks w <= ticks (run_calls utc uuid4 cs w))%nat.
Proof.
  induction cs as [|c cs IH]; intros w; simpl; [lia|].
  etransitivity; [apply (exec_ticks c)|apply IH].
Qed.

Lemma utc_monotone :
  (forall n, utc n <= utc (S n))%Z -> forall a b, (a <= b)%nat -> (utc a <= utc b)%Z.
Proof.
  intros Hmono a b Hab. induction Hab as [|b _ IH]; [lia|].
  pose proof (Hmono b). lia.
Qed.

(** X7. Under a clock that never runs backwards, a session that has
    expired stays gone: whatever calls follow, its token is not found
    and its history reads as empty. No call extends or revives it. *)
Theorem expired_session_stays_gone cs w tok r limit :
  (forall n, utc n <= utc (S n))%Z ->
  coherent w ->
  db w !! tok = Some r -> (r_expires_at r <= utc (ticks w))%Z ->
  fst (get_session utc tok (run_calls utc uuid4 cs w)) = None /\
  fst (get_conversation_history utc tok limit (run_calls utc uuid4 cs w)) = [].
Proof.
  intros Hmono Hc Hr He.
  set (w1 := run_calls utc uuid4 cs w).
  assert (Hc1 : coherent w1)
    by (apply run_preserves; [apply step_coherent|exact Hc]).
  destruct (run_rows_kept cs w tok r Hr) as (r1 & Hr1 & _ & _ & He1).
  fold w1 in Hr1.
  assert (Hnow : (utc (ticks w) <= utc (ticks w1))%Z)
    by (apply utc_monotone; [exact Hmono|apply run_ticks]).
  assert (Hg : fst (get_session utc tok w1) = None).
  { apply get_session_expired; [exact Hmono| |].
    - intros r' Hr'. rewrite Hr1 in Hr'. injection Hr' as <-. lia.
    - intros st h e Hst Hh Hhe.
      destruct (Hc1 tok h e) as (r' & Hr' & <- & _); [|exact Hhe|].
      + unfold cache_at. rewrite Hst. exact Hh.
      + rewrite Hr1 in Hr'. injection Hr' as <-. lia. }
  split; [exact Hg|].
  unfold get_conversation_history, bind.
  destruct (get_session utc tok w1) as [[s|] w2]; [discriminate|reflexivity].
Qed.
(** *** The adaptation record *)

Ltac lookups :=
  repeat first [ rewrite lookup_insert_eq
               | rewrite lookup_insert_ne by discriminate
               | rewrite lookup_empty ].

Lemma adaptation_record_lookups msgs pacing now :
  let a := adaptation_record msgs pacing now in
  a !! "communication_preference" = Some (JStr (communication_preference msgs)) /\
  a !! "engagement_style" = Some (JStr (engagement_style msgs)) /\
  a !! "emotional_tone" = Some (JStr (emotional_tone msgs)) /\
  a !! "inferred_learning_style" = JStr <$> inferred_learning_style msgs /\
  a !! "pacing_preference" = JStr <$> pacing /\
  a !! "analysis_timestamp" = Some (JIso now) /\
  a !! "message_count_analyzed" = Some (JNum (Z.of_nat (length msgs))).
Proof.
  unfold adaptation_record, set_opt.
  destruct pacing, (inferred_learning_style msgs); simpl;
    repeat split; lookups; reflexivity.
Qed.

(** *** Uniform messages *)

Lemma sum_list_gt (f : Message -> nat) c msgs :
  msgs <> [] -> Forall (fun m => (c < f m)%nat) msgs ->
  (c * length msgs < sum_list (map f msgs))%nat.
Proof.
  induction msgs as [|m ms IH]; [congruence|]. intros _ H.
  inversion H as [|? ? Hm Hms]; subst. simpl.
  destruct ms as [|m' ms'].
  - simpl. lia.
  - specialize (IH ltac:(discriminate) Hms). simpl in *. lia.
Qed.

Lemma sum_list_lt (f : Message -> nat) c msgs :
  msgs <> [] -> Forall (fun m => (f m < c)%nat) msgs ->
  (sum_list (map f msgs) < c * length msgs)%nat.
Proof.
  induction msgs as [|m ms IH]; [congruence|]. intros _ H.
  inversion H as [|? ? Hm Hms]; subst. simpl.
  destruct ms as [|m' ms'].
  - simpl. lia.
  - specialize (IH ltac:(discriminate) Hms). simpl in *. lia.
Qed.

Lemma filter_all {A} (f : A -> bool) l :
  Forall (fun x => f x = true) l -> List.filter f l = l.
Proof.
  induction 1 as [|x l Hx _ IH]; simpl; [reflexivity|]. rewrite Hx, IH. reflexivity.
Qed.

Lemma filter_none {A} (f : A -> bool) l :
  Forall (fun x => f x = false) l -> List.filter f l = [].
Proof.
  induction 1 as [|x l Hx _ IH]; simpl; [reflexivity|]. rewrite Hx, IH. reflexivity.
Qed.

(** X15. When the analyzer returns a record for a non-empty list of
    messages: contents all longer than 200 characters give
    "detailed", all shorter than 50 give "concise"; a question mark
    in every message gives "inquisitive", in none "declarative". *)
Theorem uniform_messages_decide_the_style msgs w a w' :
  msgs <> [] ->
  _analyze_interaction_patterns utc msgs w = (Ok a, w') ->
  (Forall (fun m => (200 < String.length (content m))%nat) msgs ->
   a !! "communication_preference" = Some (JStr "detailed")) /\
  (Forall (fun m => (String.length (content m) < 50)%nat) msgs ->
   a !! "communication_preference" = Some (JStr "concise")) /\
  (Forall (fun m => contains "?" (content m) = true) msgs ->
   a !! "engagement_style" = Some (JStr "inquisitive")) /\
  (Forall (fun m => contains "?" (content m) = false) msgs ->
   a !! "engagement_style" = Some (JStr "declarative")).
Proof.
  intros Hne Ha. rewrite analyze_patterns_eq in Ha by exact Hne.
  destruct (pacing_preference msgs) as [pacing|e]; [|discriminate].
  injection Ha as <- _.
  destruct (adaptation_record_lookups msgs pacing (utc (ticks w)))
    as (Hc & He & _).
  assert (Hlen : (0 < length msgs)%nat) by (destruct msgs; [congruence|simpl; lia]).
  repeat split; intros Hall.
  - rewrite Hc. unfold communication_preference.
    pose proof (sum_list_gt (fun m => String.length (content m)) 200 msgs Hne Hall).
    destruct (Nat.ltb_spec (200 * length msgs)
                (sum_list (map (fun m => String.length (content m)) msgs)));
      [reflexivity|lia].
  - rewrite Hc. unfold communication_preference.
    pose proof (sum_list_lt (fun m => String.length (content m)) 50 msgs Hne Hall).
    destruct (Nat.ltb_spec (200 * length msgs)
                (sum_list (map (fun m => String.length (content m)) msgs))); [lia|].
    destruct (Nat.ltb_spec
                (sum_list (map (fun m => String.length (content m)) msgs))
                (50 * length msgs)); [reflexivity|lia].
  - rewrite He. unfold engagement_style. rewrite filter_all by exact Hall.
    destruct (Nat.ltb_spec (3 * length msgs) (10 * length msgs)); [reflexivity|lia].
  - rewrite He. unfold engagement_style. rewrite filter_none by exact Hall.
    simpl. destruct (Nat.ltb_spec (3 * length msgs) 0); [lia|].
    destruct (Nat.ltb_spec 0 (length msgs)); [reflexivity|lia].
Qed.

(** X16. The learning style the analyzer infers: "visual" iff the visual
    words have a positive score that no other score exceeds,
    "analytical" iff the analytical score exceeds the visual one and is
    not exceeded by the practical one, "practical" iff the practical
    score exceeds both; the key is left out iff no listed word occurs. *)
Theorem learning_style_tie_break msgs :
  let v := word_hits visual_words msgs in
  let a := word_hits analytical_words msgs in
  let p := word_hits practical_words msgs in
  (inferred_learning_style msgs = Some "visual" <->
     (0 < v /\ a <= v /\ p <= v)%nat) /\
  (inferred_learning_style msgs = Some "analytical" <->
     (v < a /\ p <= a)%nat) /\
  (inferred_learning_style msgs = Some "practical" <->
     (v < p /\ a < p)%nat) /\
  (inferred_learning_style msgs = None <-> (v = 0 /\ a = 0 /\ p = 0)%nat).
Proof.
  intros v a p. unfold inferred_learning_style. fold v a p.
  destruct (Nat.ltb_spec 0 (Nat.max v (Nat.max a p))) as [Hpos|Hzero].
  - destruct (Nat.eqb_spec v (Nat.max v (Nat.max a p))) as [Hv|Hv].
    + repeat split; intros; try discriminate; try lia; reflexivity.
    + destruct (Nat.eqb_spec a (Nat.max v (Nat.max a p))) as [Ha|Ha];
        repeat split; intros; try discriminate; try lia; try reflexivity.
  - repeat split; intros; try discriminate; try lia; reflexivity.
Qed.

(** *** Pacing and failing analyses *)

Lemma sum_times_raises l : forall acc,
  Exists (fun v => summable v = false) l -> sum_times acc l = Raise TypeError.
Proof.
  induction l as [|v l IH]; intros acc H; [inversion H|].
  inversion H as [? ? Hv|? ? Hl]; subst.
  - destruct v; simpl in Hv; try discriminate; reflexivity.
  - destruct v; simpl; auto.
Qed.


Lemma response_time_in_valid_times msgs m v :
  In m msgs -> metadata m !! "response_time" = Some v -> v <> JNull ->
  In v (valid_times msgs).
Proof.
  intros Hm Hv Hn. unfold valid_times. apply filter_In. split.
  - apply list_elem_of_In, list_elem_of_omap. exists m. split; [|exact Hv].
    apply list_elem_of_In. exact Hm.
  - destruct v; try reflexivity. congruence.
Qed.

Lemma pacing_preference_raises msgs m v :
  In m msgs -> metadata m !! "response_time" = Some v -> v <> JNull ->
  summable v = false -> pacing_preference msgs = Raise TypeError.
Proof.
  intros Hm Hv Hn Hs. unfold pacing_preference.
  pose proof (response_time_in_valid_times msgs m v Hm Hv Hn) as Hin.
  rewrite (sum_times_raises (valid_times msgs) 0).
  - destruct (valid_times msgs); [destruct Hin|reflexivity].
  - apply Exists_exists. exists v. split; [apply list_elem_of_In; exact Hin|exact Hs].
Qed.

Lemma pacing_preference_cases msgs p :
  pacing_preference msgs = Ok (Some p) ->
  p = "fast" \/ p = "thoughtful" \/ p = "moderate".
Proof.
  unfold pacing_preference. repeat case_match; intros [= <-]; auto.
Qed.

Lemma pacing_preference_overflow msgs total :
  valid_times msgs <> [] ->
  sum_times 0 (valid_times msgs) = Ok total ->
  float_overflow total (Z.of_nat (length (valid_times msgs))) = true ->
  pacing_preference msgs = Raise OverflowError.
Proof.
  intros Hne Hs Hf. unfold pacing_preference.
  destruct (valid_times msgs) as [|v l]; [congruence|].
  rewrite Hs, Hf. reflexivity.
Qed.


(** X18. One response time that is neither None, a number nor a boolean
    among the recent user messages of a session with at least ten
    messages makes [analyze_personality_adaptations] raise TypeError,
    and nothing is stored: the world is as the read of the session left
    it. *)
Theorem failing_analysis_stores_nothing tok w s w1 m v :
  get_session utc tok w = (Some s, w1) ->
  (personality_analysis_threshold <= length (conversation_history s))%nat ->
  In m (recent_user_messages (conversation_history s)) ->
  metadata m !! "response_time" = Some v ->
  v <> JNull -> summable v = false ->
  analyze_personality_adaptations utc tok w = (Raise TypeError, w1).
Proof.
  intros Hg Hlen Hm Hv Hn Hs. rewrite analyze_world, Hg.
  destruct (Nat.ltb_spec (length (conversation_history s))
              personality_analysis_threshold) as [Hlt|_]; [lia|].
  pose proof (pacing_preference_raises _ m v Hm Hv Hn Hs) as Hp.
  destruct (recent_user_messages (conversation_history s)); [destruct Hm|].
  cbv zeta. rewrite Hp. reflexivity.
Qed.

Lemma last_n_length {A} n (l : list A) : (length (last_n n l) <= n)%nat.
Proof. unfold last_n. rewrite length_drop. lia. Qed.

Lemma filter_length_le {A} (f : A -> bool) l :
  (length (List.filter f l) <= length l)%nat.
Proof. induction l as [|x l IH]; simpl; [lia|]. destruct (f x); simpl; lia. Qed.

(** X20. The record an analysis returns counts the messages it looked
    at: between one and twenty, all of them user messages of the
    session, and never more than the history holds. *)
Theorem analysis_looks_at_no_more_than_twenty tok w s w1 a w2 :
  get_session utc tok w = (Some s, w1) ->
  (personality_analysis_threshold <= length (conversation_history s))%nat ->
  recent_user_messages (conversation_history s) <> [] ->
  analyze_personality_adaptations utc tok w = (Ok a, w2) ->
  exists n : nat,
    a !! "message_count_analyzed" = Some (JNum (Z.of_nat n)) /\
    (1 <= n <= 20)%nat /\ (n <= length (conversation_history s))%nat /\
    n = length (List.filter (fun msg => String.eqb (role msg) "user")
                  (last_n 20 (conversation_history s))) /\
    a !! "analysis_timestamp" = Some (JIso (utc (ticks w1))).
Proof.
  intros Hg Hlen Hne Ha. rewrite analyze_world, Hg in Ha.
  destruct (Nat.ltb_spec (length (conversation_history s))
              personality_analysis_threshold) as [Hlt|_]; [lia|].
  destruct (recent_user_messages (conversation_history s)) as [|m ms] eqn:Em;
    [congruence|].
  cbv zeta in Ha.
  destruct (pacing_preference (m :: ms)) as [pacing|e]; [|discriminate].
  injection Ha as <- _.
  destruct (adaptation_record_lookups (m :: ms) pacing (utc (ticks w1)))
    as (_ & _ & _ & _ & _ & Hts & Hcnt).
  exists (length (m :: ms)). split; [exact Hcnt|].
  assert (Hb : (length (m :: ms) <= 20)%nat).
  { rewrite <- Em. unfold recent_user_messages.
    etransitivity; [apply filter_length_le|apply last_n_length]. }
  assert (Hh : (length (m :: ms) <= length (conversation_history s))%nat).
  { rewrite <- Em. unfold recent_user_messages.
    etransitivity; [apply filter_length_le|]. unfold last_n. rewrite length_drop. lia. }
  repeat split; try assumption.
  - simpl. lia.
  - rewrite <- Em. reflexivity.
Qed.

(** *** Recommendations *)

Lemma str_is_excl d k v v' : v <> v' -> str_is d k v = true -> str_is d k v' = false.
Proof.
  unfold str_is. destruct (d !! k) as [[]|]; try done.
  intros Hne H. apply String.eqb_eq in H as ->. apply String.eqb_neq. exact Hne.
Qed.

(** X21. The story preferences as a priority table: the pacing
    preference decides the pace before the communication preference
    does, "thoughtful" pacing forces a high detail level, and the
    engagement style decides the interaction frequency before a
    "detailed" communication preference does. Exactly the three keys
    "pace", "detail_level" and "interaction_frequency" are returned. *)
Theorem story_preferences_table a :
  let comm := str_is a "communication_preference" in
  let eng := str_is a "engagement_style" in
  let pacing := str_is a "pacing_preference" in
  _recommend_story_preferences a !! "pace" =
    Some (if pacing "fast" then "fast"
          else if pacing "thoughtful" then "slow"
          else if comm "detailed" then "moderate"
          else if comm "concise" then "fast" else "moderate") /\
  _recommend_story_preferences a !! "detail_level" =
    Some (if pacing "fast" then
            (if comm "detailed" then "high" else if comm "concise" then "low" else "balanced")
          else if pacing "thoughtful" then "high"
          else if comm "detailed" then "high"
          else if comm "concise" then "low" else "balanced") /\
  _recommend_story_preferences a !! "interaction_frequency" =
    Some (if eng "inquisitive" then "high"
          else if eng "declarative" then "low"
          else if comm "detailed" then "high" else "moderate") /\
  dom (_recommend_story_preferences a) =
    ({["pace"; "detail_level"; "interaction_frequency"]} : gset string).
Proof.
  intros comm eng pacing. subst comm eng pacing.
  unfold _recommend_story_preferences.
  destruct (str_is a "communication_preference" "detailed"),
           (str_is a "communication_preference" "concise"),
           (str_is a "engagement_style" "inquisitive"),
           (str_is a "engagement_style" "declarative"),
           (str_is a "pacing_preference" "fast"),
           (str_is a "pacing_preference" "thoughtful");
    repeat split; try (vm_compute; reflexivity).
Qed.

(** X22. The interaction style as a table: the tone follows the emotional
    tone; explanations are "detailed" for a user who needs support or
    whose learning style is analytical; questions are frequent only for
    an optimistic user; and each of the four optional keys is present
    exactly for its learning style. *)
Theorem interaction_style_table a :
  let tone := str_is a "emotional_tone" in
  let ls := str_is a "inferred_learning_style" in
  let style := _recommend_interaction_style a in
  style !! "tone" =
    Some (if tone "needs_support" then "supportive"
          else if tone "optimistic" then "enthusiastic" else "encouraging") /\
  style !! "explanation_depth" =
    Some (if tone "needs_support" || (negb (ls "visual") && ls "analytical")
          then "detailed" else "moderate") /\
  style !! "question_frequency" =
    Some (if negb (tone "needs_support") && tone "optimistic"
          then "high" else "balanced") /\
  (style !! "visual_elements" = Some "high" <-> ls "visual" = true) /\
  (style !! "logical_structure" = Some "high" <-> ls "analytical" = true) /\
  (style !! "examples" = Some "high" <-> ls "practical" = true) /\
  (style !! "hands_on_activities" = Some "high" <-> ls "practical" = true).
Proof.
  intros tone ls style. subst tone ls style.
  unfold _recommend_interaction_style.
  destruct (str_is a "inferred_learning_style" "visual") eqn:Ev.
  - rewrite (str_is_excl a "inferred_learning_style" "visual" "analytical" ltac:(discriminate) Ev),
            (str_is_excl a "inferred_learning_style" "visual" "practical" ltac:(discriminate) Ev).
    destruct (str_is a "emotional_tone" "needs_support"),
             (str_is a "emotional_tone" "optimistic");
      repeat split; intros; try done; try (vm_compute; reflexivity).
  - destruct (str_is a "inferred_learning_style" "analytical") eqn:Ea.
    + rewrite (str_is_excl a "inferred_learning_style" "analytical" "practical"
                 ltac:(discriminate) Ea).
      destruct (str_is a "emotional_tone" "needs_support"),
               (str_is a "emotional_tone" "optimistic");
        repeat split; intros; try done; try (vm_compute; reflexivity).
    + destruct (str_is a "inferred_learning_style" "practical"),
               (str_is a "emotional_tone" "needs_support"),
               (str_is a "emotional_tone" "optimistic");
        repeat split; intros; try done; try (vm_compute; reflexivity).
Qed.

(** X23. The content delivery as a priority table: the communication
    preference decides the chunk size before the fast-learner flag
    does, and the fast-learner flag before the struggles flag;
    repetition follows the struggles flag alone and complexity the
    fast-learner flag alone. Exactly three keys are returned. *)
Theorem content_delivery_table a lp :
  let comm := str_is a "communication_preference" in
  let struggles := flag lp "struggles_identified" in
  let fast := flag lp "fast_learner_indicators" in
  let delivery := _recommend_content_delivery a lp in
  delivery !! "chunk_size" =
    Some (if comm "concise" then "small"
          else if comm "detailed" then "large"
          else if fast then "large"
          else if struggles then "small" else "medium") /\
  delivery !! "repetition_frequency" =
    Some (if struggles then "high" else "moderate") /\
  delivery !! "complexity_progression" =
    Some (if fast then "accelerated" else "gradual") /\
  dom delivery =
    ({["chunk_size"; "repetition_frequency"; "complexity_progression"]} : gset string).
Proof.
  intros comm struggles fast delivery. subst comm struggles fast delivery.
  unfold _recommend_content_delivery.
  destruct (str_is a "communication_preference" "concise"),
           (str_is a "communication_preference" "detailed"),
           (flag lp "struggles_identified"),
           (flag lp "fast_learner_indicators");
    repeat split; vm_compute; reflexivity.
Qed.

Lemma recent_user_messages_short_spec recent :
  recent_user_messages_short recent = true <->
  Forall (fun msg => role msg = "user" -> (String.length (content msg) < 50)%nat)
         recent.
Proof.
  unfold recent_user_messages_short.
  induction recent as [|m l IH]; simpl.
  - split; [constructor|reflexivity].
  - destruct (String.eqb_spec (role m) "user") as [Hu|Hu]; simpl.
    + rewrite andb_true_iff, IH, Nat.ltb_lt. split.
      * intros [H1 H2]. constructor; auto.
      * intros H. inversion H; subst. auto.
    + rewrite IH. split.
      * intros H. constructor; [congruence|exact H].
      * intros H. inversion H; subst. auto.
Qed.

(** X24. At most seven engagement strategies are recommended. The
    open-ended-questions strategy is among them exactly when the
    history has more than ten messages and every user message among the
    last ten is shorter than 50 characters; in particular it is
    recommended when the last ten messages hold no user message at
    all. *)
Theorem engagement_strategies_shape a history :
  let strategies := _recommend_engagement_strategies a history in
  (length strategies <= 7)%nat /\
  ("Try more engaging, open-ended questions" ∈ strategies <->
     (10 < length history)%nat /\
     Forall (fun msg => role msg = "user" -> (String.length (content msg) < 50)%nat)
            (last_n 10 history)) /\
  ((10 < length history)%nat ->
   Forall (fun msg => role msg <> "user") (last_n 10 history) ->
   "Try more engaging, open-ended questions" ∈ strategies).
Proof.
  intros strategies.
  assert (Hiff : "Try more engaging, open-ended questions" ∈ strategies <->
     (10 < length history)%nat /\
     Forall (fun msg => role msg = "user" -> (String.length (content msg) < 50)%nat)
            (last_n 10 history)).
  { subst strategies. unfold _recommend_engagement_strategies.
    rewrite <- recent_user_messages_short_spec.
    destruct (Nat.ltb_spec 10 (length history)) as [Hlen|Hlen];
      destruct (recent_user_messages_short (last_n 10 history));
      destruct (str_is a "engagement_style" "inquisitive"),
               (str_is a "engagement_style" "declarative"),
               (str_is a "emotional_tone" "needs_support"),
               (str_is a "emotional_tone" "optimistic");
      rewrite list_elem_of_In; simpl;
      (split; [intros H; try (split; [lia|reflexivity]);
               repeat (destruct H as [H|H]; [discriminate H|]); try contradiction;
               try (split; [lia|reflexivity])
              |intros [H1 H2]; try lia; try discriminate; tauto]). }
  split; [|split; [exact Hiff|]].
  - subst strategies. unfold _recommend_engagement_strategies.
    destruct (10 <? length history)%nat;
      destruct (recent_user_messages_short (last_n 10 history));
      destruct (str_is a "engagement_style" "inquisitive"),
               (str_is a "engagement_style" "declarative"),
               (str_is a "emotional_tone" "needs_support"),
               (str_is a "emotional_tone" "optimistic"); simpl; lia.
  - intros Hlen Hno. apply Hiff. split; [exact Hlen|].
    eapply Forall_impl; [exact Hno|]. intros m Hm Hu. contradiction.
Qed.

Lemma str_is_adaptation_record msgs pacing now :
  let a := adaptation_record msgs pacing now in
  (forall v, str_is a "communication_preference" v
             = String.eqb (communication_preference msgs) v) /\
  (forall v, str_is a "engagement_style" v = String.eqb (engagement_style msgs) v) /\
  (forall v, str_is a "emotional_tone" v = String.eqb (emotional_tone msgs) v) /\
  (forall v, str_is a "pacing_preference" v
             = match pacing with Some p => String.eqb p v | None => false end).
Proof.
  destruct (adaptation_record_lookups msgs pacing now)
    as (Hc & He & Ht & _ & Hp & _).
  unfold str_is. cbv zeta. rewrite Hc, He, Ht, Hp.
  destruct pacing; repeat split; reflexivity.
Qed.

(** X25. What the analyzer writes the recommender reads. For the record
    of an analysis of a non-empty list of messages: the recommended
    tone is "enthusiastic" when the positive word hits exceed twice the
    negative ones, "supportive" when the negative exceed twice the
    positive, else "encouraging"; the story pace is "fast" or "slow"
    for fast or thoughtful pacing and otherwise follows a concise
    communication preference. *)
Theorem analysis_drives_recommendations msgs w a w' :
  msgs <> [] ->
  _analyze_interaction_patterns utc msgs w = (Ok a, w') ->
  exists pacing,
    pacing_preference msgs = Ok pacing /\
    _recommend_interaction_style a !! "tone" =
      Some (if (negative_count msgs * 2 <? positive_count msgs)%nat then "enthusiastic"
            else if (positive_count msgs * 2 <? negative_count msgs)%nat
                 then "supportive" else "encouraging") /\
    _recommend_story_preferences a !! "pace" =
      Some (if decide (pacing = Some "fast") then "fast"
            else if decide (pacing = Some "thoughtful") then "slow"
            else if String.eqb (communication_preference msgs) "concise"
                 then "fast" else "moderate").
Proof.
  intros Hne Ha. rewrite analyze_patterns_eq in Ha by exact Hne.
  destruct (pacing_preference msgs) as [pacing|e] eqn:Ep; [|discriminate].
  injection Ha as <- _. exists pacing. split; [reflexivity|].
  destruct (str_is_adaptation_record msgs pacing (utc (ticks w)))
    as (Hc & He & Ht & Hp).
  split.
  - set (a := adaptation_record msgs pacing (utc (ticks w))) in *.
    unfold _recommend_interaction_style. rewrite !Ht.
    destruct (str_is a "inferred_learning_style" "visual"),
             (str_is a "inferred_learning_style" "analytical"),
             (str_is a "inferred_learning_style" "practical");
      unfold emotional_tone;
      (destruct (negative_count msgs * 2 <? positive_count msgs)%nat;
       [|destruct (positive_count msgs * 2 <? negative_count msgs)%nat]);
      vm_compute; reflexivity.
  - unfold _recommend_story_preferences. rewrite !Hc, !He, !Hp.
    assert (Hcomm : communication_preference msgs = "detailed" \/
                    communication_preference msgs = "concise" \/
                    communication_preference msgs = "balanced").
    { unfold communication_preference. repeat case_match; auto. }
    assert (Hpace : pacing = None \/ pacing = Some "fast" \/
                    pacing = Some "thoughtful" \/ pacing = Some "moderate").
    { destruct pacing as [p|]; [|auto].
      destruct (pacing_preference_cases msgs p Ep) as [->|[->| ->]]; auto. }
    destruct Hcomm as [-> |[-> | ->]];
      destruct Hpace as [-> |[-> |[-> | ->]]];
      destruct (String.eqb (engagement_style msgs) "inquisitive"),
               (String.eqb (engagement_style msgs) "declarative");
      vm_compute; reflexivity.
Qed.

(** *** Reading back what an operation stored *)

Lemma session_data_fields s s' :
  session_data s = session_data s' ->
  user_id s = user_id s' /\
  conversation_history s = conversation_history s' /\
  current_story_context s = current_story_context s' /\
  learning_progress s = learning_progress s' /\
  personality_adaptations s = personality_adaptations s' /\
  last_activity s = last_activity s' /\
  expires_at s = expires_at s'.
Proof.
  unfold session_data. intros H. injection H as H1 H2 H3 H4 H5 H6 H7. auto 10.
Qed.

Lemma dict_truthy_spec (d : Dict) : dict_truthy d = true <-> d <> ∅.
Proof.
  unfold dict_truthy. destruct (map_to_list d) eqn:E.
  - apply map_to_list_empty_iff in E. split; [discriminate|congruence].
  - split; [|reflexivity]. intros _ ->. rewrite map_to_list_empty in E.
    discriminate E.
Qed.

Lemma dict_truthy_empty : dict_truthy ∅ = false.
Proof. unfold dict_truthy. rewrite map_to_list_empty. reflexivity. Qed.

Lemma same_mode_refl w : same_mode w w.
Proof. split; [reflexivity|]. destruct (redis w); eauto. Qed.

Lemma same_mode_trans w1 w2 w3 :
  same_mode w1 w2 -> same_mode w2 w3 -> same_mode w1 w3.
Proof.
  intros [Ha1 Hr1] [Ha2 Hr2]. split; [congruence|].
  destruct (redis w1); [rewrite Hr1 in Hr2; exact Hr2..|].
  destruct Hr1 as [st Hr1]. rewrite Hr1 in Hr2. exact Hr2.
Qed.

Lemma same_mode_tick w : same_mode w (tick w).
Proof. split; [reflexivity|]. simpl. destruct (redis w); eauto. Qed.

Lemma same_mode_get_session tok w r w' :
  get_session utc tok w = (r, w') -> same_mode w w'.
Proof.
  intros Hg. split; [eapply get_session_aware; exact Hg|].
  destruct (get_session_cache _ _ _ _ _ Hg)
    as [Hr|(st & Hst & [[_ Hr]|[(row & _ & _ & Hr)|(row & _ & _ & _ & Hr)]])];
    rewrite ?Hst; eauto.
  rewrite Hr. destruct (redis w); eauto.
Qed.

Lemma same_mode_cached tok s w : same_mode w (cached tok s w).
Proof.
  unfold cached. split.
  - destruct (redis w), (last_activity s); reflexivity.
  - destruct (redis w) eqn:E; try (rewrite E; reflexivity).
    destruct (last_activity s); simpl; eauto.
Qed.

Lemma flushed_world cols s r w :
  db w !! session_token s = Some r ->
  db (snd (flushed cols s r w)) !! session_token s = Some (fst (flushed cols s r w)) /\
  redis (snd (flushed cols s r w)) = redis w /\
  db_aware (snd (flushed cols s r w)) = db_aware w.
Proof.
  intros Hr. unfold flushed. destruct cols as [|c cols]; [auto|].
  destruct (has LastActivity (c :: cols)); simpl;
    rewrite lookup_insert_eq; auto.
Qed.

Lemma same_mode_committed cols s w : same_mode w (snd (committed cols s w)).
Proof.
  unfold committed. destruct (tracked s); [|apply same_mode_refl].
  destruct (db w !! session_token s) as [r|] eqn:Er; [|apply same_mode_refl].
  destruct (flushed_world cols s r w Er) as (_ & Hrd & Haw). cbn [snd].
  split; [exact Haw|]. rewrite Hrd. destruct (redis w); eauto.
Qed.

Lemma same_mode_written_back tok cols s w :
  same_mode w (written_back tok cols s w).
Proof.
  unfold written_back. eapply same_mode_trans;
    [apply same_mode_committed|apply same_mode_cached].
Qed.

Lemma same_mode_cache_appended tok m w : same_mode w (cache_appended tok m w).
Proof.
  unfold cache_appended. split.
  - destruct (redis w); reflexivity.
  - destruct (redis w) eqn:E; try (rewrite E; reflexivity). simpl. eauto.
Qed.

(** A read of a session that the serving store holds and that is still
    valid finds it; it comes from the cache exactly when Redis is
    connected and its hashes are readable. *)
Lemma read_after tok w s :
  holds w tok s ->
  (utc (ticks w) < expires_at s)%Z ->
  (utc (S (ticks w)) < expires_at s)%Z ->
  exists s' w', get_session utc tok w = (Some s', w') /\
                session_data s' = session_data s /\
                match redis w, db_aware w with
                | Connected _, false => tracked s' = false
                | _, _ => tracked s' = true
                end.
Proof.
  destruct w as [d rd t i aw dn]. unfold holds. simpl.
  intros H Ht1 Ht2.
  assert (Hrow : (exists r, d !! tok = Some r /\
                            session_data (of_row tok r) = session_data s) ->
            forall t' rd', (utc t' < expires_at s)%Z ->
            exists s' w',
              (let* session := db_query utc tok in
               match session with
               | Some s => let* _ := when_client (_cache_session tok s) in
                           ret (Some s)
               | None => ret None
               end) {| db := d; redis := rd'; ticks := t'; issued := i;
                       db_aware := aw; db_now := dn |} = (Some s', w') /\
              session_data s' = session_data s /\ tracked s' = true).
  { intros (r & Hr & Hd) t' rd' Ht'. run. rewrite Hr.
    assert (r_expires_at r = expires_at s) as He by (injection Hd; auto).
    rewrite He. destruct (Z.ltb_spec (utc t') (expires_at s)); [|lia].
    destruct rd' as [| |st']; simpl;
      try (destruct (r_last_activity r));
      (eexists _, _; split; [reflexivity|]; split; [exact Hd|reflexivity]). }
  destruct rd as [| |st].
  - destruct (Hrow H t NoClient Ht1) as (s' & w' & Hg & Hd & Htr).
    exists s', w'. split; [|split; assumption]. exact Hg.
  - destruct (Hrow H t Unreachable Ht1) as (s' & w' & Hg & Hd & Htr).
    exists s', w'. split; [|split; assumption]. exact Hg.
  - destruct aw.
    + unfold get_session, bind at 1, gets, redis_client. cbn [redis].
      unfold bind at 1, _get_cached_session. cbn [redis].
      destruct (st !! cache_key tok) as [h|] eqn:Eh;
        [destruct (h_expires_at h) as [e|] eqn:Ee|].
      * unfold bind at 1, utcnow at 1, set_ticks. cbn [ticks db redis issued db_aware db_now].
        unfold ret at 1.
        destruct (Hrow H (S t) (Connected st) Ht2) as (s' & w' & Hg & Hd & Htr).
        exists s', w'. split; [exact Hg|]. split; assumption.
      * destruct (Hrow H t (Connected st) Ht1) as (s' & w' & Hg & Hd & Htr).
        exists s', w'. split; [exact Hg|]. split; assumption.
      * destruct (Hrow H t (Connected st) Ht1) as (s' & w' & Hg & Hd & Htr).
        exists s', w'. split; [exact Hg|]. split; assumption.
    + run. rewrite H. simpl. destruct (Z.leb_spec (expires_at s) (utc t)); [lia|].
      eexists _, _. split; [reflexivity|]. simpl. split; [|reflexivity].
      unfold session_data, session_of_hash; simpl. reflexivity.
Qed.

(** What the serving store holds after the commit and the re-caching
    that end an operation. *)
Lemma holds_untracked tok cols s w st :
  tracked s = false -> redis w = Connected st -> db_aware w = false ->
  last_activity s <> None ->
  holds (written_back tok cols s w) tok s /\
  ticks (written_back tok cols s w) = ticks w /\
  db (written_back tok cols s w) = db w.
Proof.
  intros Ht Hr Ha Hl. unfold written_back, committed. rewrite Ht. cbn [fst snd].
  unfold cached, holds. rewrite Hr.
  destruct (last_activity s) as [t|]; [|congruence]. simpl. rewrite Ha.
  rewrite lookup_insert_eq. auto.
Qed.

Lemma holds_tracked tok cols s r w :
  tracked s = true -> session_token s = tok -> db w !! tok = Some r ->
  r_last_activity (fst (flushed cols s r w)) <> None ->
  holds (written_back tok cols s w) tok (of_row tok (fst (flushed cols s r w))) /\
  written_back tok cols s w
    = cached tok (of_row tok (fst (flushed cols s r w))) (snd (flushed cols s r w)).
Proof.
  intros Ht Htok Hr Hl. unfold written_back, committed. rewrite Ht, Htok, Hr.
  cbn [fst snd]. split; [|reflexivity].
  subst tok. destruct (flushed_world cols s r w Hr) as (Hdb & Hrd & Haw).
  set (r' := fst (flushed cols s r w)) in *.
  set (w' := snd (flushed cols s r w)) in *.
  unfold cached.
  change (last_activity (of_row (session_token s) r')) with (r_last_activity r').
  destruct (r_last_activity r') as [t|]; [|congruence].
  destruct (redis w') as [| |st] eqn:Erd; unfold holds; simpl;
    rewrite ?Erd, ?Haw; eauto.
  destruct (db_aware w); [eauto|]. rewrite lookup_insert_eq. reflexivity.
Qed.

Lemma holds_cache_appended tok m w s :
  holds w tok s ->
  holds (cache_appended tok m w) tok
    (match redis w, db_aware w with
     | Connected _, false =>
         set_conversation_history (append_trim (conversation_history s) m) s
     | _, _ => s
     end).
Proof.
  unfold holds, cache_appended.
  destruct (redis w) as [| |st] eqn:Er; rewrite ?Er; try (intros H; exact H).
  simpl. destruct (db_aware w); [intros H; exact H|].
  intros H. rewrite lookup_insert_eq, H. reflexivity.
Qed.

Lemma ticks_flushed cols s r w :
  ticks (snd (flushed cols s r w))
  = match cols with
    | [] => ticks w
    | _ :: _ => if has LastActivity cols then ticks w else S (ticks w)
    end.
Proof.
  unfold flushed. destruct cols as [|c cols]; [reflexivity|].
  destruct (has LastActivity (c :: cols)); reflexivity.
Qed.

(** *** Creating, reading and updating one session *)

(** X8. A session created under a token that the table does not hold
    yet and under which Redis holds no hash with an expiry is served by
    the next read, in every mode of the cache: empty history and
    dictionaries, the given user, and an expiry 24 hours after the
    clock reading of the creation. *)
Theorem created_session_is_served uid w :
  db w !! uuid4 (issued w) = None ->
  (forall h, cache_at (uuid4 (issued w)) w = Some h -> h_expires_at h = None) ->
  (utc (S (S (ticks w))) < utc (ticks w) + session_lifetime)%Z ->
  exists w1 s w2,
    create_session utc uuid4 uid w = (Ok (uuid4 (issued w)), w1) /\
    get_session utc (uuid4 (issued w)) w1 = (Some s, w2) /\
    user_id s = uid /\ conversation_history s = [] /\
    current_story_context s = ∅ /\ learning_progress s = ∅ /\
    personality_adaptations s = ∅ /\ last_activity s = None /\
    expires_at s = (utc (ticks w) + session_lifetime)%Z.
Proof.
  intros Hfresh Hhash H1. rewrite create_world. cbv zeta. rewrite Hfresh.
  destruct w as [d rd t i aw dn]. unfold cache_at in Hhash.
  cbn [db redis ticks issued db_now] in *.
  generalize dependent (uuid4 i). intros tok Hfresh Hhash.
  eexists _, (of_row tok (new_row uid (utc t + session_lifetime) (dn (S t)))), _.
  split; [reflexivity|]. split; [|simpl; auto 10].
  assert (Hlt : (utc (S (S t)) <? utc t + session_lifetime)%Z = true)
    by (apply Z.ltb_lt; exact H1).
  destruct rd as [| |st]; run.
  - rewrite lookup_insert_eq. simpl. rewrite Hlt. reflexivity.
  - rewrite lookup_insert_eq. simpl. rewrite Hlt. reflexivity.
  - destruct (st !! cache_key tok) as [h|] eqn:Eh; simpl.
    + rewrite (Hhash h eq_refl). simpl. rewrite lookup_insert_eq. simpl.
      rewrite Hlt. reflexivity.
    + rewrite lookup_insert_eq. simpl. rewrite Hlt. reflexivity.
Qed.

(** X9. Appending to a token that neither the table nor a connected
    Redis knows leaves the table alone but creates a Redis hash that
    holds nothing but the message; the token is still not found
    afterwards and its history reads as empty. *)
Theorem append_to_unknown_token_leaves_orphan_hash tok rl ct md w st :
  redis w = Connected st ->
  db w !! tok = None -> st !! cache_key tok = None ->
  let message := {| role := rl; content := ct; timestamp := utc (ticks w);
                    metadata := default ∅ md |} in
  let w1 := snd (add_conversation_message utc tok rl ct md w) in
  db w1 = db w /\
  cache_at tok w1 = Some (hset_conversation_history [message] empty_hash) /\
  fst (get_session utc tok w1) = None /\
  fst (get_conversation_history utc tok None w1) = [].
Proof.
  intros Hr Hd Hc message w1.
  assert (Ew : w1 = set_redis
                      (Connected
                         (<[cache_key tok :=
                              hset_conversation_history [message] empty_hash]> st))
                      (tick (tick w))).
  { unfold w1. rewrite add_world. cbv zeta. fold message.
    destruct w as [d rd t i aw dn]. simpl in *. subst rd. unfold tick, cache_appended. run.
    rewrite Hc. simpl. rewrite Hd. simpl. rewrite ?Hc. reflexivity. }
  assert (Eg : get_session utc tok w1 = (None, tick w1)).
  { rewrite Ew. destruct w as [d rd t i aw dn]. simpl in *. unfold tick. run.
    rewrite lookup_insert_eq. simpl. rewrite Hd. reflexivity. }
  split; [rewrite Ew; reflexivity|].
  split; [rewrite Ew; unfold cache_at; simpl; apply lookup_insert_eq|].
  split; [rewrite Eg; reflexivity|].
  unfold get_conversation_history, bind. rewrite Eg. reflexivity.
Qed.

Lemma db_written_back_untracked tok cols s w :
  tracked s = false -> db (written_back tok cols s w) = db w.
Proof.
  intros Ht. unfold written_back, committed. rewrite Ht. cbn [fst snd].
  unfold cached. destruct (redis w), (last_activity s); reflexivity.
Qed.

(** X10. An update of a session that was served from the cache never
    reaches the table: after [update_learning_progress],
    [update_story_context] or an analysis the table is what it was. *)
Theorem cached_session_updates_skip_the_table tok w s w0 p c :
  get_session utc tok w = (Some s, w0) -> tracked s = false ->
  db (snd (update_learning_progress utc tok p w)) = db w /\
  db (snd (update_story_context utc tok c w)) = db w /\
  db (snd (analyze_personality_adaptations utc tok w)) = db w.
Proof.
  intros Hg Htr. pose proof (get_session_db utc tok w _ _ Hg) as Hdb.
  rewrite update_learning_progress_mutate, update_story_context_mutate.
  rewrite !mutate_world, analyze_world, Hg. simpl.
  rewrite !db_written_back_untracked by exact Htr.
  split; [exact Hdb|]. split; [exact Hdb|].
  repeat case_match; simpl; rewrite ?db_written_back_untracked by exact Htr;
    exact Hdb.
Qed.

(** A mutation of a session served from the cache is written to the
    cache, stamped with the clock reading the mutation took. *)
Lemma mutate_cached f cols tok w s0 w0 :
  (forall s, session_token (f s) = session_token s /\ tracked (f s) = tracked s) ->
  get_session utc tok w = (Some s0, w0) -> tracked s0 = false ->
  holds (snd (mutate utc f cols tok w)) tok
        (set_last_activity (Some (utc (ticks w0))) (f s0)) /\
  ticks (snd (mutate utc f cols tok w)) = S (ticks w0) /\
  same_mode w (snd (mutate utc f cols tok w)) /\
  (exists st, redis w = Connected st) /\ db_aware w = false.
Proof.
  intros Hf Hg Htr.
  pose proof (same_mode_get_session _ _ _ _ Hg) as Hm0.
  destruct (get_session_result _ _ _ _ Hg)
    as [_ [(Htr' & _)|(_ & _ & Haw & Hrd & h & uid & e & Hh & _)]]; [congruence|].
  unfold cache_at in Hh. destruct (redis w) as [| |st] eqn:Er; try discriminate.
  rewrite mutate_world, Hg. cbn [snd].
  destruct (holds_untracked tok (cols s0 ++ [LastActivity])
              (set_last_activity (Some (utc (ticks w0))) (f s0)) (tick w0) st)
    as (Hh' & Ht' & _).
  - simpl. destruct (Hf s0) as [_ ->]. exact Htr.
  - exact Hrd.
  - change (db_aware w0 = false). destruct Hm0 as [Hm0 _]. congruence.
  - discriminate.
  - split; [exact Hh'|]. split; [exact Ht'|]. split; [|eauto].
    eapply same_mode_trans; [exact Hm0|].
    eapply same_mode_trans; [apply (same_mode_tick w0)|].
    apply same_mode_written_back.
Qed.

Lemma holds_cache_read tok w s st :
  redis w = Connected st -> db_aware w = false -> holds w tok s ->
  (utc (ticks w) < expires_at s)%Z ->
  exists s' w', get_session utc tok w = (Some s', w') /\
                session_data s' = session_data s /\ tracked s' = false /\
                ticks w' = S (ticks w).
Proof.
  intros Hr Ha Hh Ht.
  destruct w as [d rd t i aw dn]. unfold holds in Hh. simpl in *. subst rd aw. run.
  rewrite Hh. simpl. destruct (Z.leb_spec (expires_at s) (utc t)); [lia|].
  eexists _, _. split; [reflexivity|]. simpl. repeat split.
Qed.

(** Two mutations of a session served from the cache, then a read: the
    read returns the content produced by the second mutation applied to
    that of the first. *)
Lemma mutate_twice_then_read f g cf cg tok w s0 w0 :
  (forall s, session_token (f s) = session_token s /\ tracked (f s) = tracked s) ->
  (forall s, session_token (g s) = session_token s /\ tracked (g s) = tracked s) ->
  (forall s, expires_at (f s) = expires_at s) ->
  (forall s, expires_at (g s) = expires_at s) ->
  (forall s s', session_data s = session_data s' ->
                session_data (g s) = session_data (g s')) ->
  get_session utc tok w = (Some s0, w0) -> tracked s0 = false ->
  alive_until utc (expires_at s0) (ticks w + 8) ->
  exists s w' t1 t2,
    get_session utc tok (snd (mutate utc g cg tok (snd (mutate utc f cf tok w))))
      = (Some s, w') /\
    session_data s =
      session_data (set_last_activity t2 (g (set_last_activity t1 (f s0)))).
Proof.
  intros Hf Hg' Hef Heg Hgd Hg Htr Halive.
  pose proof (get_session_ticks _ _ _ _ _ Hg) as Ht0.
  destruct (mutate_cached f cf tok w s0 w0 Hf Hg Htr)
    as (Hh1 & Ht1 & [Ha1 Hm1] & [st Hst] & Haw).
  set (w1 := snd (mutate utc f cf tok w)) in *.
  set (s1 := set_last_activity (Some (utc (ticks w0))) (f s0)) in *.
  assert (He1 : expires_at s1 = expires_at s0) by (subst s1; simpl; apply Hef).
  rewrite Hst in Hm1. destruct Hm1 as [st1 Hst1]. rewrite Haw in Ha1.
  destruct (holds_cache_read tok w1 s1 st1 Hst1 Ha1 Hh1)
    as (s1' & w1' & Hg1 & Hd1 & Htr1 & Ht1').
  { rewrite He1. apply Halive. lia. }
  destruct (mutate_cached g cg tok w1 s1' w1' Hg' Hg1 Htr1)
    as (Hh2 & Ht2 & [Ha2 Hm2] & _ & _).
  set (w2 := snd (mutate utc g cg tok w1)) in *.
  set (s2 := set_last_activity (Some (utc (ticks w1'))) (g s1')) in *.
  assert (He2 : expires_at s2 = expires_at s0).
  { subst s2; simpl. rewrite Heg. transitivity (expires_at s1); [|exact He1].
    injection Hd1; auto. }
  rewrite Hst1 in Hm2. destruct Hm2 as [st2 Hst2]. rewrite Ha1 in Ha2.
  destruct (holds_cache_read tok w2 s2 st2 Hst2 Ha2 Hh2)
    as (s2' & w2' & Hg2 & Hd2 & _).
  { rewrite He2. apply Halive. lia. }
  exists s2', w2', (Some (utc (ticks w0))), (Some (utc (ticks w1'))).
  split; [exact Hg2|]. rewrite Hd2. subst s2.
  pose proof (Hgd _ _ Hd1) as Hx. fold s1.
  unfold session_data in *; simpl in *.
  injection Hx as -> -> -> -> -> _ ->. reflexivity.
Qed.

(** X11. Two progress updates in a row of a session served from the
    cache: the next read has, for every key, the value of the second
    update if it has the key, else that of the first, else the stored
    one. *)
Theorem later_progress_update_wins tok p1 p2 w s0 w0 :
  get_session utc tok w = (Some s0, w0) -> tracked s0 = false ->
  alive_until utc (expires_at s0) (ticks w + 8) ->
  exists s w',
    get_session utc tok
      (snd (update_learning_progress utc tok p2
              (snd (update_learning_progress utc tok p1 w)))) = (Some s, w') /\
    forall k, learning_progress s !! k =
      match p2 !! k with
      | Some v => Some v
      | None => match p1 !! k with
                | Some v => Some v
                | None => learning_progress s0 !! k
                end
      end.
Proof.
  intros Hg Htr Halive. rewrite !update_learning_progress_mutate.
  destruct (mutate_twice_then_read
              (fun s => set_learning_progress (p1 ∪ learning_progress s) s)
              (fun s => set_learning_progress (p2 ∪ learning_progress s) s)
              (fun s => if dict_truthy (learning_progress s) then []
                        else [LearningProgress])
              (fun s => if dict_truthy (learning_progress s) then []
                        else [LearningProgress])
              tok w s0 w0) as (s & w' & t1 & t2 & Hg' & Hd); try assumption.
  - intros []; split; reflexivity.
  - intros []; split; reflexivity.
  - intros []; reflexivity.
  - intros []; reflexivity.
  - intros sa sb H. apply session_data_fields in H.
    destruct H as (Hu & Hc & Hst & Hlp & Hpa & Hla & He).
    unfold session_data. simpl. congruence.
  - exists s, w'. split; [exact Hg'|]. apply session_data_fields in Hd.
    destruct Hd as (_ & _ & _ & Hlp & _). rewrite Hlp. simpl.
    intros k. rewrite !lookup_union.
    destruct (p2 !! k), (p1 !! k), (learning_progress s0 !! k); reflexivity.
Qed.

(** X12. A story update and a progress update of a session served from
    the cache do not disturb each other: in either order the next read
    has the new story context, the merged progress, and the history and
    adaptations as before. *)
Theorem story_and_progress_updates_are_independent tok c p w s0 w0 :
  get_session utc tok w = (Some s0, w0) -> tracked s0 = false ->
  alive_until utc (expires_at s0) (ticks w + 8) ->
  exists s w' s' w'',
    get_session utc tok
      (snd (update_learning_progress utc tok p
              (snd (update_story_context utc tok c w)))) = (Some s, w') /\
    get_session utc tok
      (snd (update_story_context utc tok c
              (snd (update_learning_progress utc tok p w)))) = (Some s', w'') /\
    current_story_context s = c /\ current_story_context s' = c /\
    learning_progress s = p ∪ learning_progress s0 /\
    learning_progress s' = p ∪ learning_progress s0 /\
    conversation_history s = conversation_history s0 /\
    conversation_history s' = conversation_history s0 /\
    personality_adaptations s = personality_adaptations s0 /\
    personality_adaptations s' = personality_adaptations s0.
Proof.
  intros Hg Htr Halive.
  rewrite !update_learning_progress_mutate, !update_story_context_mutate.
  destruct (mutate_twice_then_read
              (set_current_story_context c)
              (fun s => set_learning_progress (p ∪ learning_progress s) s)
              (fun _ => [CurrentStoryContext])
              (fun s => if dict_truthy (learning_progress s) then []
                        else [LearningProgress])
              tok w s0 w0) as (s & w' & t1 & t2 & Hg1 & Hd1); try assumption.
  1-2: intros []; split; reflexivity.
  1-2: intros []; reflexivity.
  { intros sa sb H. apply session_data_fields in H.
    destruct H as (Hu & Hc & Hst & Hlp & Hpa & Hla & He).
    unfold session_data. simpl. congruence. }
  destruct (mutate_twice_then_read
              (fun s => set_learning_progress (p ∪ learning_progress s) s)
              (set_current_story_context c)
              (fun s => if dict_truthy (learning_progress s) then []
                        else [LearningProgress])
              (fun _ => [CurrentStoryContext])
              tok w s0 w0) as (s' & w'' & t1' & t2' & Hg2 & Hd2); try assumption.
  1-2: intros []; split; reflexivity.
  1-2: intros []; reflexivity.
  { intros sa sb H. apply session_data_fields in H.
    destruct H as (Hu & Hc & Hst & Hlp & Hpa & Hla & He).
    unfold session_data. simpl. congruence. }
  exists s, w', s', w''. split; [exact Hg1|]. split; [exact Hg2|].
  apply session_data_fields in Hd1, Hd2.
  destruct Hd1 as (_ & Hc1 & Hs1 & Hl1 & Hp1 & _).
  destruct Hd2 as (_ & Hc2 & Hs2 & Hl2 & Hp2 & _).
  rewrite Hc1, Hs1, Hl1, Hp1, Hc2, Hs2, Hl2, Hp2. simpl. auto 10.
Qed.

(** *** Appending and reading *)

Lemma has_last_activity cols : has LastActivity (cols ++ [LastActivity]) = true.
Proof.
  unfold has. rewrite existsb_app. simpl. apply orb_true_r.
Qed.

Lemma flushed_stamped cols s r w :
  flushed (cols ++ [LastActivity]) s r w
  = (write_columns (cols ++ [LastActivity]) s r,
     set_db (<[session_token s := write_columns (cols ++ [LastActivity]) s r]> (db w)) w).
Proof.
  unfold flushed. rewrite has_last_activity.
  destruct cols; reflexivity.
Qed.

(** X13. Reading the history right after an append to a found session
    that stays valid.  For a session loaded from the table the commit
    leaves [kept] in the row: the stored history itself when that is
    non-empty and stays within the bound (the message is lost), the
    history with the message appended and trimmed otherwise; this is
    also what [_cache_session] then writes to Redis.  For a session
    served from the cache, [_cache_session] writes the cached history
    with the message appended.  Where reads are served from the table,
    what the commit left is read; where they are served from Redis,
    [_add_message_to_cache] has appended the message once more. *)
Theorem append_then_read tok rl ct md w s w0 :
  get_session utc tok (tick w) = (Some s, w0) ->
  alive_until utc (expires_at s) (ticks w0 + 3) ->
  let message := {| role := rl; content := ct; timestamp := utc (ticks w);
                    metadata := default ∅ md |} in
  let written := if tracked s then kept (conversation_history s) message
                 else append_trim (conversation_history s) message in
  fst (get_conversation_history utc tok None
         (snd (add_conversation_message utc tok rl ct md w)))
  = match redis w, db_aware w with
    | Connected _, false => append_trim written message
    | _, _ => written
    end.
Proof.
  intros Hg Halive message written.
  pose proof (same_mode_get_session _ _ _ _ Hg) as Hm0.
  assert (Hmode : forall cols s1,
            same_mode w (written_back tok cols s1 (tick w0))).
  { intros cols s1. eapply same_mode_trans; [apply (same_mode_tick w)|].
    eapply same_mode_trans; [exact Hm0|].
    eapply same_mode_trans; [apply (same_mode_tick w0)|].
    apply same_mode_written_back. }
  rewrite add_world. cbv zeta. fold message. rewrite Hg. cbn [snd].
  set (cols := ((if list_truthy (conversation_history s) &&
                   negb (max_conversation_length
                           <? length (conversation_history s ++ [message]))%nat
                then [] else [ConversationHistory]) ++ [LastActivity])%list).
  set (s1 := set_last_activity (Some (utc (ticks w0)))
               (set_conversation_history
                  (append_trim (conversation_history s) message) s)).
  specialize (Hmode cols s1).
  set (wb := written_back tok cols s1 (tick w0)) in *.
  assert (Hwb : exists s2, holds wb tok s2 /\ expires_at s2 = expires_at s /\
                           conversation_history s2 = written /\
                           ticks wb = S (ticks w0)).
  { destruct (get_session_result _ _ _ _ Hg)
      as [Htok [(Htr & r & Hr & Hs & _)
               |(Htr & _ & Haw & Hrd & h & uid & e & Hh & _)]].
    - assert (Hr0 : db (tick w0) !! tok = Some r).
      { simpl. rewrite (get_session_db _ _ _ _ _ Hg). exact Hr. }
      destruct (holds_tracked tok cols s1 r (tick w0)) as [Hh Hw];
        [exact Htr|exact Htok|exact Hr0| |].
      { unfold cols. rewrite flushed_stamped. simpl.
        rewrite has_last_activity. discriminate. }
      exists (of_row tok (fst (flushed cols s1 r (tick w0)))).
      split; [exact Hh|]. unfold wb. rewrite Hw, ticks_cached.
      unfold cols. rewrite flushed_stamped. cbn [fst snd]. simpl.
      split; [subst s; reflexivity|]. split; [|reflexivity].
      unfold written, kept. rewrite Htr. subst s. simpl.
      unfold has. rewrite existsb_app. simpl.
      destruct (list_truthy (r_conversation_history r) &&
                negb (max_conversation_length
                        <? length (r_conversation_history r ++ [message]))%nat);
        reflexivity.
    - unfold cache_at in Hh. simpl in Hh.
      destruct (redis w) as [| |st] eqn:Er; try discriminate.
      destruct (holds_untracked tok cols s1 (tick w0) st) as (Hh' & Ht' & _);
        [exact Htr|simpl; rewrite Hrd; exact Er| |discriminate|].
      { change (db_aware w0 = false). destruct Hm0 as [Hm0 _]. rewrite Hm0.
        exact Haw. }
      exists s1. split; [exact Hh'|]. split; [reflexivity|].
      split; [|exact Ht']. unfold written. rewrite Htr. reflexivity. }
  destruct Hwb as (s2 & Hh2 & He2 & Hc2 & Ht2).
  pose proof (holds_cache_appended tok message wb s2 Hh2) as Hh3.
  set (s3 := match redis wb, db_aware wb with
             | Connected _, false =>
                 set_conversation_history
                   (append_trim (conversation_history s2) message) s2
             | _, _ => s2
             end) in *.
  assert (He3 : expires_at s3 = expires_at s).
  { unfold s3. destruct (redis wb), (db_aware wb); exact He2. }
  destruct (read_after tok (cache_appended tok message wb) s3 Hh3)
    as (s' & w' & Hg' & Hd & _).
  { rewrite He3, ticks_cache_appended, Ht2. apply Halive. lia. }
  { rewrite He3, ticks_cache_appended, Ht2. apply Halive. lia. }
  unfold get_conversation_history, bind. rewrite Hg'. simpl.
  assert (conversation_history s' = conversation_history s3) as ->
    by (injection Hd; auto).
  unfold s3. destruct Hmode as [Haw Hrd]. rewrite Haw.
  destruct (redis w) as [| |st]; [rewrite Hrd; exact Hc2..|].
  destruct Hrd as [st' ->]. destruct (db_aware w); [exact Hc2|].
  simpl. rewrite Hc2. reflexivity.
Qed.

(** *** Appends without a connected cache *)

Lemma kept_empty m : kept [] m = [m].
Proof. reflexivity. Qed.

Lemma kept_within h m :
  h <> [] -> (length h < max_conversation_length)%nat -> kept h m = h.
Proof.
  intros Hne Hlen. unfold kept. destruct h as [|x h]; [congruence|].
  cbn [list_truthy andb].
  destruct (Nat.ltb_spec max_conversation_length (length ((x :: h) ++ [m])));
    [|reflexivity].
  rewrite length_app in *. simpl in *. lia.
Qed.

Lemma kept_full h m :
  (max_conversation_length <= length h)%nat -> kept h m = append_trim h m.
Proof.
  intros Hlen. unfold kept.
  destruct (Nat.ltb_spec max_conversation_length (length (h ++ [m])));
    [rewrite andb_false_r; reflexivity|].
  rewrite length_app in *. simpl in *. lia.
Qed.

Lemma append_trim_full h m :
  (max_conversation_length <= length h)%nat ->
  length (append_trim h m) = max_conversation_length.
Proof.
  intros Hlen. unfold append_trim, last_n.
  destruct (Nat.ltb_spec max_conversation_length (length (h ++ [m]))) as [H|H];
    rewrite length_app in *; simpl in *; [|lia].
  rewrite length_drop, length_app. simpl. lia.
Qed.

Lemma foldl_kept_within msgs : forall h,
  h <> [] -> (length h < max_conversation_length)%nat -> foldl kept h msgs = h.
Proof.
  induction msgs as [|m ms IH]; intros h Hne Hlen; [reflexivity|].
  simpl. rewrite kept_within by assumption. apply IH; assumption.
Qed.

Lemma foldl_kept_full msgs : forall h,
  (max_conversation_length <= length h)%nat ->
  foldl kept h msgs = foldl append_trim h msgs.
Proof.
  induction msgs as [|m ms IH]; intros h Hlen; [reflexivity|].
  simpl. rewrite kept_full by exact Hlen. apply IH.
  rewrite append_trim_full by exact Hlen. lia.
Qed.

Lemma append_step_no_cache tok rl ct md w r :
  no_cache w -> db w !! tok = Some r ->
  (utc (S (ticks w)) < r_expires_at r)%Z ->
  let m := {| role := rl; content := ct; timestamp := utc (ticks w);
              metadata := default ∅ md |} in
  let w1 := snd (add_conversation_message utc tok rl ct md w) in
  no_cache w1 /\ ticks w1 = (ticks w + 3)%nat /\
  exists r1, db w1 !! tok = Some r1 /\ r_expires_at r1 = r_expires_at r /\
             r_conversation_history r1 = kept (r_conversation_history r) m.
Proof.
  intros Hn Hr Ht m w1.
  assert (Hg : get_session utc tok (tick w) = (Some (of_row tok r), tick (tick w))).
  { rewrite get_session_no_cache by exact Hn.
    unfold db_query, bind, utcnow, gets, ret, tick. simpl. rewrite Hr.
    destruct (Z.ltb_spec (utc (S (ticks w))) (r_expires_at r)); [reflexivity|lia]. }
  unfold w1. rewrite add_world. cbv zeta. fold m. rewrite Hg. cbn [snd].
  unfold written_back, committed. cbn [tracked set_last_activity
    set_conversation_history of_row session_token].
  change (db (tick (tick (tick w)))) with (db w). rewrite Hr.
  rewrite flushed_stamped. cbn [fst snd].
  unfold no_cache in *.
  unfold cached, cache_appended, set_db, set_redis, tick, set_ticks. simpl.
  destruct (redis w) as [| |st]; [| |contradiction].
  - simpl. split; [exact I|]. split; [lia|].
    eexists. rewrite lookup_insert_eq. split; [reflexivity|]. simpl.
    split; [reflexivity|]. unfold kept, has. rewrite existsb_app. simpl.
    destruct (list_truthy (r_conversation_history r) &&
              negb (max_conversation_length
                      <? length (r_conversation_history r ++ [m]))%nat);
      reflexivity.
  - simpl. split; [exact I|]. split; [lia|].
    eexists. rewrite lookup_insert_eq. split; [reflexivity|]. simpl.
    split; [reflexivity|]. unfold kept, has. rewrite existsb_app. simpl.
    destruct (list_truthy (r_conversation_history r) &&
              negb (max_conversation_length
                      <? length (r_conversation_history r ++ [m]))%nat);
      reflexivity.
Qed.

Lemma appends_no_cache tok items : forall w r,
  no_cache w -> db w !! tok = Some r ->
  alive_until utc (r_expires_at r) (ticks w + 4 * length items + 1) ->
  let w' := snd (append_many utc tok items w) in
  no_cache w' /\ (ticks w' <= ticks w + 4 * length items)%nat /\
  exists r' msgs,
    db w' !! tok = Some r' /\ r_expires_at r' = r_expires_at r /\
    map unstamped msgs = map item_content items /\
    r_conversation_history r' = foldl kept (r_conversation_history r) msgs.
Proof.
  induction items as [|[[rl ct] md] rest IH]; intros w r Hn Hr Halive.
  - simpl. split; [exact Hn|]. split; [lia|]. exists r, []. auto.
  - cbn [append_many].
    destruct (add_conversation_message utc tok rl ct md w) as [u w1] eqn:E.
    assert (Heq : bind (add_conversation_message utc tok rl ct md)
                    (fun _ => append_many utc tok rest) w
                  = append_many utc tok rest w1)
      by (unfold bind; rewrite E; reflexivity).
    rewrite Heq. clear Heq.
    pose proof (append_step_no_cache tok rl ct md w r Hn Hr) as Hstep.
    rewrite E in Hstep. simpl in Hstep.
    destruct Hstep as (Hn1 & Ht1 & r1 & Hr1 & He1 & Hc1).
    { apply Halive. simpl. lia. }
    destruct (IH w1 r1 Hn1 Hr1) as (Hn' & Ht' & r' & msgs & Hr' & He' & Hms & Hc').
    { rewrite He1. intros k Hk. apply Halive. cbn [length]. lia. }
    split; [exact Hn'|]. split; [cbn [length]; lia|].
    exists r', ({| role := rl; content := ct; timestamp := utc (ticks w);
                   metadata := default ∅ md |} :: msgs).
    split; [exact Hr'|]. split; [congruence|].
    split; [simpl; rewrite Hms; reflexivity|].
    simpl. rewrite Hc', Hc1. reflexivity.
Qed.

(** X14. Appends without a connected cache, read back while the
    session is valid.  To an empty stored history only the first of
    the appended messages is added.  A stored history that is neither
    empty nor full is left as it is: every appended message is lost.
    A stored history of 100 messages is replaced by the last 100 of
    the stored and the appended messages, in order. *)
Theorem appends_without_cache tok items w r :
  no_cache w -> db w !! tok = Some r ->
  alive_until utc (r_expires_at r) (ticks w + 4 * length items + 2) ->
  let stored := r_conversation_history r in
  let history := fst (get_conversation_history utc tok None
                        (snd (append_many utc tok items w))) in
  (stored = [] -> map unstamped history = map item_content (take 1 items)) /\
  (stored <> [] -> (length stored < max_conversation_length)%nat ->
   history = stored) /\
  (length stored = max_conversation_length ->
   map unstamped history
   = most_recent max_conversation_length
       (map unstamped stored ++ map item_content items)).
Proof.
  intros Hn Hr Halive stored history.
  destruct (appends_no_cache tok items w r Hn Hr)
    as (Hn' & Ht' & r' & msgs & Hr' & He' & Hms & Hc').
  { intros k Hk. apply Halive. lia. }
  set (w' := snd (append_many utc tok items w)) in *.
  assert (Hhist : history = foldl kept stored msgs).
  { unfold history, get_conversation_history, bind.
    rewrite get_session_no_cache by exact Hn'.
    unfold db_query, bind, utcnow, gets, ret. simpl. rewrite Hr'. rewrite He'.
    destruct (Z.ltb_spec (utc (ticks w')) (r_expires_at r)) as [_|Hge].
    - simpl. exact Hc'.
    - exfalso. assert (utc (ticks w') < r_expires_at r)%Z; [|lia].
      apply Halive. lia. }
  rewrite Hhist. split; [|split].
  - intros Hs. rewrite Hs. destruct items as [|it rest].
    + destruct msgs; [reflexivity|discriminate Hms].
    + destruct msgs as [|m ms]; [discriminate Hms|].
      simpl in Hms. injection Hms as Hm _. simpl.
      rewrite foldl_kept_within; [simpl; rewrite Hm; reflexivity|discriminate|].
      unfold max_conversation_length. simpl. lia.
  - intros Hne Hlen. apply foldl_kept_within; assumption.
  - intros Hlen. rewrite foldl_kept_full by lia.
    rewrite <- last_n_most_recent, <- Hms, <- map_app, <- map_last_n. f_equal.
    destruct msgs as [|m ms].
    + simpl. rewrite app_nil_r. unfold last_n. rewrite Hlen, Nat.sub_diag.
      reflexivity.
    + apply foldl_append_trim. discriminate.
Qed.

(** *** A stored analysis *)

Lemma db_cached tok s w : db (cached tok s w) = db w.
Proof. unfold cached. destruct (redis w), (last_activity s); reflexivity. Qed.

(** A commit without a changed attribute leaves the table alone. *)
Lemma db_written_back_nothing tok s w : db (written_back tok [] s w) = db w.
Proof.
  unfold written_back. rewrite db_cached. unfold committed.
  destruct (tracked s); [|reflexivity].
  destruct (db w !! session_token s); reflexivity.
Qed.

(** X19. An analysis that returns a record for a session that stays
    valid.  For a session served from the cache with a [last_activity],
    and for a session loaded from the table whose stored adaptations
    are empty, the record is stored: the next read has the new record
    merged over the stored adaptations, keys of the new record
    winning, and history, story context and learning progress as
    before.  For a session loaded from the table whose stored
    adaptations are not empty the table is left as it was. *)
Theorem analysis_is_merged_and_read_back tok w s w1 a w2 :
  get_session utc tok w = (Some s, w1) ->
  (personality_analysis_threshold <= length (conversation_history s))%nat ->
  recent_user_messages (conversation_history s) <> [] ->
  analyze_personality_adaptations utc tok w = (Ok a, w2) ->
  alive_until utc (expires_at s) (ticks w1 + 4) ->
  ((tracked s = false /\ last_activity s <> None) \/
   (tracked s = true /\ personality_adaptations s = ∅) ->
   exists s' w',
     get_session utc tok w2 = (Some s', w') /\
     personality_adaptations s' = a ∪ personality_adaptations s /\
     (forall k v, a !! k = Some v -> personality_adaptations s' !! k = Some v) /\
     (forall k, a !! k = None ->
                personality_adaptations s' !! k = personality_adaptations s !! k) /\
     conversation_history s' = conversation_history s /\
     current_story_context s' = current_story_context s /\
     learning_progress s' = learning_progress s) /\
  (tracked s = true -> personality_adaptations s <> ∅ -> db w2 = db w).
Proof.
  intros Hg Hlen Hne Ha Halive. rewrite analyze_world, Hg in Ha.
  destruct (Nat.ltb_spec (length (conversation_history s))
              personality_analysis_threshold) as [Hlt|_]; [lia|].
  destruct (recent_user_messages (conversation_history s)) as [|m ms] eqn:Em;
    [congruence|].
  cbv zeta in Ha.
  destruct (pacing_preference (m :: ms)) as [pacing|e]; [|discriminate].
  injection Ha as <- <-.
  set (a := adaptation_record (m :: ms) pacing (utc (ticks w1))).
  set (s2 := set_personality_adaptations (a ∪ personality_adaptations s) s).
  pose proof (get_session_db _ _ _ _ _ Hg) as Hdb.
  destruct (get_session_result _ _ _ _ Hg) as [Htok Hfrom].
  split.
  - assert (Hrd : forall s3 w3,
              holds w3 tok s3 -> (ticks w1 < ticks w3 <= ticks w1 + 2)%nat ->
              expires_at s3 = expires_at s ->
              personality_adaptations s3 = a ∪ personality_adaptations s ->
              conversation_history s3 = conversation_history s ->
              current_story_context s3 = current_story_context s ->
              learning_progress s3 = learning_progress s ->
              exists s' w',
                get_session utc tok w3 = (Some s', w') /\
                personality_adaptations s' = a ∪ personality_adaptations s /\
                (forall k v, a !! k = Some v ->
                             personality_adaptations s' !! k = Some v) /\
                (forall k, a !! k = None ->
                   personality_adaptations s' !! k
                   = personality_adaptations s !! k) /\
                conversation_history s' = conversation_history s /\
                current_story_context s' = current_story_context s /\
                learning_progress s' = learning_progress s).
    { intros s3 w3 Hh Ht He Hpa3 Hc3 Hst3 Hlp3.
      destruct (read_after tok w3 s3 Hh) as (s' & w' & Hg' & Hd' & _).
      - rewrite He. apply Halive. lia.
      - rewrite He. apply Halive. lia.
      - exists s', w'. split; [exact Hg'|].
        apply session_data_fields in Hd'.
        destruct Hd' as (_ & Hc & Hst & Hlp & Hpa & _ & _).
        rewrite Hpa, Hc, Hst, Hlp, Hpa3, Hc3, Hst3, Hlp3.
        repeat split; try reflexivity.
        + intros k v Hk. apply lookup_union_Some_l. exact Hk.
        + intros k Hk. apply lookup_union_r. exact Hk. }
    intros [[Htr Hla]|[Htr Hpa]].
    + destruct Hfrom as [(Htr' & _)|(_ & _ & Haw & Hrd1 & h & uid & e & Hh & _)];
        [congruence|].
      unfold cache_at in Hh. destruct (redis w) as [| |st] eqn:Er; try discriminate.
      destruct (holds_untracked tok
                  (if dict_truthy (personality_adaptations s) then []
                   else [PersonalityAdaptations]) s2 (tick w1) st)
        as (Hh' & Ht' & _); [exact Htr|exact Hrd1| |exact Hla|].
      { change (db_aware w1 = false).
        destruct (get_session_aware _ _ _ _ Hg) as [-> _]. exact Haw. }
      apply (Hrd s2 _ Hh'); try reflexivity. rewrite Ht'. simpl. lia.
    + destruct Hfrom as [(_ & r & Hr & Hs & _)|(Htr' & _)]; [|congruence].
      replace (dict_truthy (personality_adaptations s)) with false
        by (rewrite Hpa; symmetry; apply dict_truthy_empty).
      assert (Hr1 : db (tick w1) !! tok = Some r) by (simpl; rewrite Hdb; exact Hr).
      destruct (holds_tracked tok [PersonalityAdaptations] s2 r (tick w1))
        as [Hh' Hw]; [exact Htr|exact Htok|exact Hr1|simpl; discriminate|].
      apply (Hrd _ _ Hh').
      * rewrite Hw, ticks_cached. simpl. lia.
      * subst s. reflexivity.
      * reflexivity.
      * subst s. reflexivity.
      * subst s. reflexivity.
      * subst s. reflexivity.
  - intros Htr Hpa. apply dict_truthy_spec in Hpa. rewrite Hpa.
    rewrite db_written_back_nothing. exact Hdb.
Qed.

(** X26. Struggles reported through [update_learning_progress] for a
    session served from the cache, or for one loaded from the table
    whose stored progress is empty, reach the recommendations: with a
    truthy "struggles_identified" in the update, the next
    recommendations for the session ask for a high repetition
    frequency. *)
Theorem reported_struggles_reach_recommendations tok p v w s0 w0 :
  get_session utc tok w = (Some s0, w0) ->
  tracked s0 = false \/ learning_progress s0 = ∅ ->
  alive_until utc (expires_at s0) (ticks w0 + 3) ->
  p !! "struggles_identified" = Some v -> truthy v = true ->
  exists r w',
    get_personalized_recommendations utc tok
      (snd (update_learning_progress utc tok p w)) = (Some r, w') /\
    content_delivery r !! "repetition_frequency" = Some "high".
Proof.
  intros Hg Hfrom Halive Hp Hv.
  assert (Hread : exists s w',
            get_session utc tok (snd (update_learning_progress utc tok p w))
              = (Some s, w') /\
            learning_progress s = p ∪ learning_progress s0).
  { rewrite update_learning_progress_mutate.
    destruct (tracked s0) eqn:Htr.
    - destruct Hfrom as [Hf|Hlp]; [discriminate|].
      destruct (get_session_result _ _ _ _ Hg)
        as [Htok [(_ & r & Hr & Hs & _)|(Htr' & _)]]; [|congruence].
      rewrite mutate_world, Hg. cbn [snd]. rewrite Hlp, dict_truthy_empty.
      set (s1 := set_last_activity (Some (utc (ticks w0)))
                   (set_learning_progress (p ∪ ∅) s0)).
      assert (Hr0 : db (tick w0) !! tok = Some r).
      { simpl. rewrite (get_session_db _ _ _ _ _ Hg). exact Hr. }
      destruct (holds_tracked tok [LearningProgress; LastActivity] s1 r (tick w0))
        as [Hh Hw]; [exact Htr|exact Htok|exact Hr0|simpl; discriminate|].
      destruct (read_after tok _ _ Hh) as (s & w' & Hg' & Hd & _).
      + rewrite Hw, ticks_cached. simpl. subst s0. apply Halive. lia.
      + rewrite Hw, ticks_cached. simpl. subst s0. apply Halive. lia.
      + exists s, w'. split; [exact Hg'|].
        apply session_data_fields in Hd. destruct Hd as (_ & _ & _ & Hl & _).
        rewrite Hl. reflexivity.
    - destruct (mutate_cached
                  (fun s => set_learning_progress (p ∪ learning_progress s) s)
                  (fun s => if dict_truthy (learning_progress s) then []
                            else [LearningProgress])
                  tok w s0 w0) as (Hh & Ht & _); [|exact Hg|exact Htr|].
      { intros []; split; reflexivity. }
      destruct (read_after tok _ _ Hh) as (s & w' & Hg' & Hd & _).
      + rewrite Ht. simpl. apply Halive. lia.
      + rewrite Ht. simpl. apply Halive. lia.
      + exists s, w'. split; [exact Hg'|].
        apply session_data_fields in Hd. destruct Hd as (_ & _ & _ & Hl & _).
        rewrite Hl. reflexivity. }
  destruct Hread as (s & w' & Hg' & Hlp).
  unfold get_personalized_recommendations, bind. rewrite Hg'. unfold ret.
  eexists _, w'. split; [reflexivity|]. cbn [content_delivery].
  assert (Hf : flag (learning_progress s) "struggles_identified" = true).
  { unfold flag. rewrite Hlp.
    rewrite (lookup_union_Some_l _ _ _ _ Hp). exact Hv. }
  unfold _recommend_content_delivery. rewrite Hf.
  destruct (flag (learning_progress s) "fast_learner_indicators"),
           (str_is (personality_adaptations s) "communication_preference" "concise"),
           (str_is (personality_adaptations s) "communication_preference" "detailed");
    vm_compute; reflexivity.
Qed.

(** X27. A progress update of a session loaded from the table whose
    stored progress is not empty never reaches the table: the update
    is made in place on the loaded dictionary, which the commit does
    not write.  The row keeps its stored progress. *)
Theorem progress_update_to_loaded_session_is_lost tok p w s0 w0 :
  get_session utc tok w = (Some s0, w0) ->
  tracked s0 = true -> learning_progress s0 <> ∅ ->
  exists r r',
    db w !! tok = Some r /\
    db (snd (update_learning_progress utc tok p w)) !! tok = Some r' /\
    r_learning_progress r' = r_learning_progress r /\
    r_learning_progress r = learning_progress s0.
Proof.
  intros Hg Htr Hlp. apply dict_truthy_spec in Hlp.
  destruct (get_session_result _ _ _ _ Hg)
    as [Htok [(_ & r & Hr & Hs & _)|(Htr' & _)]]; [|congruence].
  rewrite update_learning_progress_mutate, mutate_world, Hg. cbn [snd].
  rewrite Hlp. cbn [app].
  set (s1 := set_last_activity (Some (utc (ticks w0)))
               (set_learning_progress (p ∪ learning_progress s0) s0)).
  assert (Hr0 : db (tick w0) !! tok = Some r).
  { simpl. rewrite (get_session_db _ _ _ _ _ Hg). exact Hr. }
  destruct (holds_tracked tok [LastActivity] s1 r (tick w0)) as [_ Hw];
    [exact Htr|exact Htok|exact Hr0|simpl; discriminate|].
  exists r, (write_columns [LastActivity] s1 r).
  split; [exact Hr|]. rewrite Hw. split; [|split; [reflexivity|subst s0; reflexivity]].
  unfold cached. cbn [flushed has existsb Column_eqb orb fst snd].
  assert (Hl : db (set_db (<[session_token s1 := write_columns [LastActivity] s1 r]>
                              (db (tick w0))) (tick w0)) !! tok
               = Some (write_columns [LastActivity] s1 r)).
  { simpl. rewrite Htok. apply lookup_insert_eq. }
  destruct (redis _); [exact Hl|exact Hl|].
  destruct (last_activity _); exact Hl.
Qed.
End ServiceProperties.

(** ** The further properties at concrete inputs *)

(** A fact about the result of a concrete run is read off the run. *)
Lemma computed {A B} (P : A -> B -> Prop) (x : A * B) a b :
  x = (a, b) -> P (fst x) (snd x) -> P a b.
Proof. intros ->. exact id. Qed.

Ltac from_run E P := refine (computed P _ _ _ E _); vm_compute.

Ltac found E :=
  exfalso;
  from_run E (fun (r : option UserSession) (_ : World) =>
                match r with Some _ => True | None => False end);
  exact I.

Ltac returned E :=
  exfalso;
  from_run E (fun (r : Result Dict) (_ : World) =>
                match r with Ok _ => True | Raise _ => False end);
  exact I.

Ltac from_cache E :=
  from_run E (fun (r : option UserSession) (_ : World) =>
                match r with Some s => tracked s = false | None => False end);
  reflexivity.

Ltac alive E :=
  let He := fresh "He" in
  let Ht := fresh "Ht" in
  match type of E with
  | _ = (Some ?s, ?w) =>
      assert (He : expires_at s = 86400%Z)
        by (from_run E (fun (r : option UserSession) (_ : World) =>
                          match r with
                          | Some s => expires_at s = 86400%Z
                          | None => False
                          end); reflexivity);
      assert (Ht : (ticks w <= 100)%nat)
        by (from_run E (fun (_ : option UserSession) (w : World) =>
                          (ticks w <= 100)%nat); lia);
      let k := fresh "k" in
      let Hk := fresh "Hk" in
      intros k Hk; rewrite He; unfold clock_ex; lia
  end.

Lemma histories_stay_bounded_witness :
  (length (fst (get_conversation_history clock_ex tok_ex None
                  (run_calls clock_ex uuid_ex calls_ex (boot (Connected ∅)))))
   <= max_conversation_length)%nat.
Proof.
  apply (histories_stay_bounded clock_ex uuid_ex calls_ex (boot (Connected ∅))
           tok_ex None).
  split.
  - intros tok row Hr. simpl in Hr. rewrite lookup_empty in Hr. discriminate Hr.
  - intros st k h l Hst Hk Hl. simpl in Hst. injection Hst as <-.
    rewrite lookup_empty in Hk. discriminate Hk.
Defined.

Lemma rows_are_kept_witness :
  exists r', db (run_calls clock_ex uuid_ex (tail calls_ex) (after_create NoClient)) !! tok_ex
             = Some r' /\
             r_user_id r' = 7%Z /\ r_created_at r' = Some 1%Z /\
             r_expires_at r' = 86400%Z.
Proof.
  apply (rows_are_kept clock_ex uuid_ex (tail calls_ex) (after_create NoClient)
           tok_ex created_row).
  vm_compute. reflexivity.
Defined.

Lemma calls_leave_other_sessions_alone_witness :
  db (exec clock_ex uuid_ex (AddMessage "zzz" "user" "hi" None)
        (after_hi (Connected ∅))) !! tok_ex
    = db (after_hi (Connected ∅)) !! tok_ex /\
  cache_at tok_ex (exec clock_ex uuid_ex (AddMessage "zzz" "user" "hi" None)
                     (after_hi (Connected ∅)))
    = cache_at tok_ex (after_hi (Connected ∅)).
Proof.
  apply (calls_leave_other_sessions_alone clock_ex uuid_ex
           (AddMessage "zzz" "user" "hi" None) (after_hi (Connected ∅)) tok_ex).
  simpl. unfold tok_ex, uuid_ex. simpl. discriminate.
Defined.

Lemma served_session_matches_its_row_witness :
  exists s r,
    fst (get_session clock_ex tok_ex (run_calls clock_ex uuid_ex calls_ex (boot (Connected ∅))))
      = Some s /\
    db (run_calls clock_ex uuid_ex calls_ex (boot (Connected ∅))) !! tok_ex = Some r /\
    expires_at s = r_expires_at r /\ user_id s = r_user_id r.
Proof.
  destruct (get_session clock_ex tok_ex
              (run_calls clock_ex uuid_ex calls_ex (boot (Connected ∅))))
    as [[s|] w'] eqn:E; [|found E].
  destruct (served_session_matches_its_row clock_ex uuid_ex calls_ex
              (boot (Connected ∅)) tok_ex s w') as [_ (r & Hr & He & Hu)].
  - intros tok h e Hh. unfold cache_at in Hh. simpl in Hh.
    rewrite lookup_empty in Hh. discriminate Hh.
  - exact E.
  - exists s, r. auto.
Defined.


Lemma served_session_is_unexpired_witness :
  exists s w',
    get_session clock_ex tok_ex (after_hi (Connected ∅)) = (Some s, w') /\
    (exists k, (ticks (after_hi (Connected ∅)) <= k < ticks w')%nat /\
               (clock_ex k < expires_at s)%Z) /\
    created_at s = None.
Proof.
  destruct (get_session clock_ex tok_ex (after_hi (Connected ∅)))
    as [[s|] w'] eqn:E; [|found E].
  destruct (served_session_is_unexpired clock_ex tok_ex
              (after_hi (Connected ∅)) s w' E) as (Hk & Hc & _).
  exists s, w'. split; [reflexivity|]. split; [exact Hk|].
  apply Hc. from_cache E.
Defined.

Lemma expired_session_stays_gone_witness :
  fst (get_session clock_ex tok_ex
         (run_calls clock_ex uuid_ex (tail calls_ex) expired_world)) = None /\
  fst (get_conversation_history clock_ex tok_ex None
         (run_calls clock_ex uuid_ex (tail calls_ex) expired_world)) = [].
Proof.
  apply (expired_session_stays_gone clock_ex uuid_ex (tail calls_ex) expired_world
           tok_ex expired_row None clock_ex_monotone).
  - intros tok h e Hh He. unfold cache_at, expired_world in Hh. cbn [redis] in Hh.
    apply lookup_singleton_Some in Hh as [Hk <-].
    apply cache_key_inj in Hk. subst tok.
    injection He as <-. exists expired_row. split; [apply lookup_singleton_eq|].
    split; [reflexivity|]. intros uid [= <-]. reflexivity.
  - apply lookup_singleton_eq.
  - vm_compute. discriminate.
Defined.

Lemma created_session_witness :
  exists w1 s w2,
    create_session clock_ex uuid_ex 7 (boot (Connected ∅)) = (Ok tok_ex, w1) /\
    get_session clock_ex tok_ex w1 = (Some s, w2) /\
    user_id s = 7%Z /\ conversation_history s = [] /\ expires_at s = 86400%Z.
Proof.
  destruct (created_session_is_served clock_ex uuid_ex 7 (boot (Connected ∅)))
    as (w1 & s & w2 & Hc & Hg & Hu & Hh & _ & _ & _ & _ & He).
  - apply lookup_empty.
  - intros h Hh. unfold cache_at in Hh. simpl in Hh.
    rewrite lookup_empty in Hh. discriminate Hh.
  - unfold clock_ex, session_lifetime. simpl. lia.
  - exists w1, s, w2. repeat split; assumption.
Defined.

Lemma orphan_hash_witness :
  db (snd (add_conversation_message clock_ex "zzz" "user" "hi" None
             (boot (Connected ∅)))) = ∅ /\
  cache_at "zzz" (snd (add_conversation_message clock_ex "zzz" "user" "hi" None
                         (boot (Connected ∅))))
    = Some (hset_conversation_history [hi_message 0] empty_hash) /\
  fst (get_session clock_ex "zzz"
         (snd (add_conversation_message clock_ex "zzz" "user" "hi" None
                 (boot (Connected ∅))))) = None.
Proof.
  destruct (append_to_unknown_token_leaves_orphan_hash clock_ex "zzz" "user" "hi"
              None (boot (Connected ∅)) ∅) as (Hd & Hc & Hg & _).
  - reflexivity.
  - apply lookup_empty.
  - apply lookup_empty.
  - split; [exact Hd|]. split; [exact Hc|exact Hg].
Defined.

Lemma cached_updates_witness :
  db (snd (update_learning_progress clock_ex tok_ex {[ "level" := JNum 2 ]}
             (after_hi (Connected ∅))))
    = db (after_hi (Connected ∅)) /\
  db (snd (update_story_context clock_ex tok_ex {[ "chapter" := JNum 1 ]}
             (after_hi (Connected ∅))))
    = db (after_hi (Connected ∅)).
Proof.
  destruct (get_session clock_ex tok_ex (after_hi (Connected ∅)))
    as [[s|] w0] eqn:E; [|found E].
  destruct (cached_session_updates_skip_the_table clock_ex tok_ex
              (after_hi (Connected ∅)) s w0
              {[ "level" := JNum 2 ]} {[ "chapter" := JNum 1 ]} E)
    as (Hp & Hs & _).
  - from_cache E.
  - split; [exact Hp|exact Hs].
Defined.

Lemma later_update_witness :
  exists s,
    fst (get_session clock_ex tok_ex
           (snd (update_learning_progress clock_ex tok_ex {[ "level" := JNum 2 ]}
              (snd (update_learning_progress clock_ex tok_ex {[ "level" := JNum 1 ]}
                 (after_hi (Connected ∅))))))) = Some s /\
    learning_progress s !! "level" = Some (JNum 2).
Proof.
  destruct (get_session clock_ex tok_ex (after_hi (Connected ∅)))
    as [[s0|] w0] eqn:E; [|found E].
  destruct (later_progress_update_wins clock_ex tok_ex
              {[ "level" := JNum 1 ]} {[ "level" := JNum 2 ]}
              (after_hi (Connected ∅)) s0 w0 E) as (s & w' & Hg & Hk).
  - from_cache E.
  - change (ticks (after_hi (Connected ∅))) with 5%nat. alive E.
  - exists s. rewrite Hg. split; [reflexivity|]. rewrite Hk.
    rewrite lookup_singleton_eq. reflexivity.
Defined.

Lemma story_and_progress_witness :
  exists s s',
    fst (get_session clock_ex tok_ex
           (snd (update_learning_progress clock_ex tok_ex {[ "level" := JNum 2 ]}
              (snd (update_story_context clock_ex tok_ex {[ "chapter" := JNum 1 ]}
                 (after_hi (Connected ∅))))))) = Some s /\
    fst (get_session clock_ex tok_ex
           (snd (update_story_context clock_ex tok_ex {[ "chapter" := JNum 1 ]}
              (snd (update_learning_progress clock_ex tok_ex {[ "level" := JNum 2 ]}
                 (after_hi (Connected ∅))))))) = Some s' /\
    current_story_context s = current_story_context s' /\
    learning_progress s = learning_progress s'.
Proof.
  destruct (get_session clock_ex tok_ex (after_hi (Connected ∅)))
    as [[s0|] w0] eqn:E; [|found E].
  destruct (story_and_progress_updates_are_independent clock_ex tok_ex
              {[ "chapter" := JNum 1 ]} {[ "level" := JNum 2 ]}
              (after_hi (Connected ∅)) s0 w0 E)
    as (s & w' & s' & w'' & Hg & Hg' & Hc & Hc' & Hl & Hl' & _).
  - from_cache E.
  - change (ticks (after_hi (Connected ∅))) with 5%nat. alive E.
  - exists s, s'. rewrite Hg, Hg'. repeat split; congruence.
Defined.

Lemma append_then_read_witness :
  fst (get_conversation_history clock_ex tok_ex None (after_hi NoClient))
    = [hi_message 2] /\
  fst (get_conversation_history clock_ex tok_ex None (after_hi (Connected ∅)))
    = [hi_message 2; hi_message 2].
Proof.
  split.
  - destruct (get_session clock_ex tok_ex (tick (after_create NoClient)))
      as [[s|] w0] eqn:E; [|found E].
    unfold after_hi.
    rewrite (append_then_read clock_ex tok_ex "user" "hi" None
               (after_create NoClient) s w0 E).
    + from_run E (fun (r : option UserSession) (_ : World) =>
                    match r with
                    | Some s =>
                        (if tracked s
                         then kept (conversation_history s) (hi_message 2)
                         else append_trim (conversation_history s) (hi_message 2))
                        = [hi_message 2]
                    | None => False
                    end).
      reflexivity.
    + alive E.
  - destruct (get_session clock_ex tok_ex (tick (after_create (Connected ∅))))
      as [[s|] w0] eqn:E; [|found E].
    unfold after_hi.
    rewrite (append_then_read clock_ex tok_ex "user" "hi" None
               (after_create (Connected ∅)) s w0 E).
    + from_run E (fun (r : option UserSession) (_ : World) =>
                    match r with
                    | Some s =>
                        append_trim
                          (if tracked s
                           then kept (conversation_history s) (hi_message 2)
                           else append_trim (conversation_history s) (hi_message 2))
                          (hi_message 2)
                        = [hi_message 2; hi_message 2]
                    | None => False
                    end).
      reflexivity.
    + alive E.
Defined.

Lemma appends_without_cache_witness :
  map unstamped
    (fst (get_conversation_history clock_ex tok_ex None
            (snd (append_many clock_ex tok_ex (user_items appended)
                    (after_create NoClient)))))
  = [("user", label 1, ∅)].
Proof.
  destruct (appends_without_cache clock_ex tok_ex (user_items appended)
              (after_create NoClient) created_row) as (Hfirst & _).
  - exact I.
  - vm_compute. reflexivity.
  - intros k Hk. unfold clock_ex. cbn [r_expires_at created_row].
    assert (Hl : length (user_items appended) = 101%nat) by reflexivity.
    rewrite Hl in Hk. change (ticks (after_create NoClient)) with 2%nat in Hk. lia.
  - apply Hfirst. reflexivity.
Defined.

Lemma uniform_messages_witness :
  exists a,
    fst (_analyze_interaction_patterns clock_ex [tone_message "ok"] (boot NoClient))
      = Ok a /\
    a !! "communication_preference" = Some (JStr "concise") /\
    a !! "engagement_style" = Some (JStr "declarative").
Proof.
  destruct (_analyze_interaction_patterns clock_ex [tone_message "ok"] (boot NoClient))
    as [[a|e] w'] eqn:E; [|returned E].
  destruct (uniform_messages_decide_the_style clock_ex [tone_message "ok"]
              (boot NoClient) a w' ltac:(discriminate) E) as (_ & Hc & _ & Hd).
  exists a. split; [reflexivity|]. split.
  - apply Hc. repeat constructor.
  - apply Hd. repeat constructor.
Defined.

Lemma failing_analysis_witness :
  analyze_personality_adaptations clock_ex tok_ex
    (timed_world (JStr "soon") NoClient)
  = (Raise TypeError,
     snd (get_session clock_ex tok_ex (timed_world (JStr "soon") NoClient))).
Proof.
  apply (failing_analysis_stores_nothing clock_ex tok_ex
           (timed_world (JStr "soon") NoClient)
           (of_row tok_ex (timed_row (JStr "soon")))
           (snd (get_session clock_ex tok_ex (timed_world (JStr "soon") NoClient)))
           (timed_message (JStr "soon")) (JStr "soon")).
  - vm_compute. reflexivity.
  - vm_compute. lia.
  - vm_compute. left. reflexivity.
  - vm_compute. reflexivity.
  - discriminate.
  - reflexivity.
Defined.

Ltac enough_messages E :=
  from_run E (fun (r : option UserSession) (_ : World) =>
                match r with
                | Some s => (10 <= length (conversation_history s))%nat
                | None => False
                end);
  lia.

Ltac some_user_messages E :=
  let Hn := fresh "Hn" in
  intros Hn; apply (f_equal length) in Hn; revert Hn;
  from_run E (fun (r : option UserSession) (_ : World) =>
                match r with
                | Some s =>
                    length (recent_user_messages (conversation_history s)) = 0%nat
                    -> False
                | None => False
                end);
  discriminate.

Lemma analysis_read_back_witness :
  exists s a s',
    fst (get_session clock_ex tok_ex (after_ten (Connected ∅))) = Some s /\
    fst (analyze_personality_adaptations clock_ex tok_ex (after_ten (Connected ∅)))
      = Ok a /\
    fst (get_session clock_ex tok_ex (after_analysis (Connected ∅))) = Some s' /\
    personality_adaptations s' = a ∪ personality_adaptations s /\
    conversation_history s' = conversation_history s.
Proof.
  destruct (get_session clock_ex tok_ex (after_ten (Connected ∅)))
    as [[s|] w1] eqn:E; [|found E].
  destruct (analyze_personality_adaptations clock_ex tok_ex (after_ten (Connected ∅)))
    as [[a|e] w2] eqn:Ea; [|returned Ea].
  destruct (analysis_is_merged_and_read_back clock_ex tok_ex
              (after_ten (Connected ∅)) s w1 a w2 E) as [Hstored _].
  - enough_messages E.
  - some_user_messages E.
  - exact Ea.
  - alive E.
  - destruct Hstored as (s' & w' & Hg & Hm & _ & _ & Hh & _).
    + left. split; [from_cache E|].
      from_run E (fun (r : option UserSession) (_ : World) =>
                    match r with
                    | Some s => last_activity s <> None
                    | None => False
                    end).
      discriminate.
    + exists s, a, s'. unfold after_analysis. rewrite Ea. simpl. rewrite Hg.
      repeat split; assumption.
Defined.

Lemma analysis_count_witness :
  exists a n,
    fst (analyze_personality_adaptations clock_ex tok_ex (ten_world ∅ NoClient))
      = Ok a /\
    a !! "message_count_analyzed" = Some (JNum (Z.of_nat n)) /\
    (1 <= n <= 20)%nat.
Proof.
  destruct (get_session clock_ex tok_ex (ten_world ∅ NoClient))
    as [[s|] w1] eqn:E; [|found E].
  destruct (analyze_personality_adaptations clock_ex tok_ex (ten_world ∅ NoClient))
    as [[a|e] w2] eqn:Ea; [|returned Ea].
  destruct (analysis_looks_at_no_more_than_twenty clock_ex tok_ex
              (ten_world ∅ NoClient) s w1 a w2 E)
    as (n & Hn & Hb & _).
  - enough_messages E.
  - some_user_messages E.
  - exact Ea.
  - exists a, n. split; [reflexivity|]. split; [exact Hn|exact Hb].
Defined.

Lemma analysis_drives_recommendations_witness :
  exists a,
    fst (_analyze_interaction_patterns clock_ex
           [tone_message "I love this, it's great!"] (boot NoClient)) = Ok a /\
    _recommend_interaction_style a !! "tone" = Some "enthusiastic".
Proof.
  destruct (_analyze_interaction_patterns clock_ex
              [tone_message "I love this, it's great!"] (boot NoClient))
    as [[a|e] w'] eqn:E; [|returned E].
  destruct (analysis_drives_recommendations clock_ex
              [tone_message "I love this, it's great!"] (boot NoClient) a w'
              ltac:(discriminate) E) as (pacing & _ & Ht & _).
  exists a. split; [reflexivity|]. rewrite Ht. vm_compute. reflexivity.
Defined.

Lemma reported_struggles_witness :
  exists r,
    fst (get_personalized_recommendations clock_ex tok_ex
           (snd (update_learning_progress clock_ex tok_ex
                   {[ "struggles_identified" := JBool true ]}
                   (after_create NoClient)))) = Some r /\
    content_delivery r !! "repetition_frequency" = Some "high".
Proof.
  destruct (get_session clock_ex tok_ex (after_create NoClient))
    as [[s0|] w0] eqn:E; [|found E].
  destruct (reported_struggles_reach_recommendations clock_ex tok_ex
              {[ "struggles_identified" := JBool true ]} (JBool true)
              (after_create NoClient) s0 w0 E) as (r & w' & Hg & Hr).
  - right.
    from_run E (fun (r : option UserSession) (_ : World) =>
                  match r with
                  | Some s => learning_progress s = ∅
                  | None => False
                  end).
    reflexivity.
  - alive E.
  - apply lookup_singleton_eq.
  - reflexivity.
  - exists r. rewrite Hg. split; [reflexivity|exact Hr].
Defined.

Lemma lost_progress_update_witness :
  exists r',
    db (after_two_updates NoClient) !! tok_ex = Some r' /\
    r_learning_progress r' = {[ "a" := JNum 1 ]}.
Proof.
  set (w := snd (update_learning_progress clock_ex tok_ex {[ "a" := JNum 1 ]}
                   (after_create NoClient))).
  destruct (get_session clock_ex tok_ex w) as [[s0|] w0] eqn:E; [|found E].
  destruct (progress_update_to_loaded_session_is_lost clock_ex tok_ex
              {[ "b" := JNum 2 ]} w s0 w0 E) as (r & r' & Hr & Hr' & Hsame & Hs0).
  - from_run E (fun (r : option UserSession) (_ : World) =>
                  match r with Some s => tracked s = true | None => False end).
    reflexivity.
  - intros Hn. apply (f_equal (fun d : Dict => d !! "a")) in Hn. revert Hn.
    from_run E (fun (r : option UserSession) (_ : World) =>
                  match r with
                  | Some s => learning_progress s !! "a" = (∅ : Dict) !! "a" -> False
                  | None => False
                  end).
    discriminate.
  - exists r'. split; [exact Hr'|]. rewrite Hsame, Hs0.
    from_run E (fun (r : option UserSession) (_ : World) =>
                  match r with
                  | Some s => learning_progress s = {[ "a" := JNum 1 ]}
                  | None => False
                  end).
    reflexivity.
Defined.
